(** * pytext/data/data.py: batching, columnar assembly and the Data orchestrator

    A shallow embedding of [Batcher], [PoolingBatcher], [zip_dicts],
    [pad_and_tensorize_batches] and [Data] from [pytext/data/data.py],
    followed by the properties of the data pipeline.

    Conventions of the embedding.
    - A Python [int] is a [Z]; a length is a [nat].
    - A Python [dict] with string keys is a [gmap string _]; a Python [set]
      of strings is a [gset string].  The [tensorizers] dict is kept as an
      association list, because its iteration order decides which converter
      runs (and raises) first.
    - An element of the iterable handed to a batcher is an [option row]:
      [None] is Python's [None] (which is also the fill value of
      [itertools.zip_longest]).
    - A generator is represented by its trace [gen A]: the items it yields,
      in order, and the exception that ends it, if any.  Creating a generator
      runs none of its body, so an exception of the body lives in the trace and
      not in the result of the call that created the generator.
    - [random.shuffle] is a parameter: a function from a list and the state of
      the random source to a rearranged list and the next state.
    - Tensorizers and data sources are written outside [data.py]; they are
      records of the functions [data.py] calls on them.
    - A cursor stored in [Data.batch] is the trace of what pulling it will
      give; the trace is computed when the stream is derived, so the draws of
      the random source for a pass are taken then, pool after pool, and a
      reading of the data source is counted then. *)

From Stdlib Require Import ZArith List Lia Permutation Sorted.
From stdpp Require Import base option list gmap strings fin_maps fin_sets.

(** ** Values, exceptions, generators *)

(** The values stored in rows: enough of Python's values for the pipeline. *)
Inductive pyval : Type :=
  | PyNone
  | PyInt (n : Z)
  | PyStr (s : string).

(** The exceptions the modelled code can raise. *)
Inductive exn : Type :=
  | KeyError (key : string)
  | ZeroDivisionError
  | ConverterError (msg : string).

Inductive result (A : Type) : Type :=
  | Ok (a : A)
  | Raise (e : exn).
Arguments Ok {A} a.
Arguments Raise {A} e.

Global Instance result_ret : MRet result := fun _ a => Ok a.
Global Instance result_bind : MBind result := fun _ _ k r =>
  match r with
  | Ok a => k a
  | Raise e => Raise e
  end.

(** [mapM_result f l]: run [f] on the elements of [l] from left to right and
    stop at the first exception. *)
Fixpoint mapM_result {A B : Type} (f : A → result B) (l : list A) : result (list B) :=
  match l with
  | [] => Ok []
  | x :: l' => y ← f x; ys ← mapM_result f l'; Ok (y :: ys)
  end.

(** The trace of a generator or of any single-pass iterator. *)
Record gen (A : Type) : Type := Gen {
  yielded : list A;
  raised : option exn
}.
Arguments Gen {A} yielded raised.
Arguments yielded {A} g.
Arguments raised {A} g.

(** [iter(l)] for a list. *)
Definition gen_of_list {A : Type} (l : list A) : gen A := Gen l None.

(** [list(g)]: all the items, unless the generator raises. *)
Definition list_of_gen {A : Type} (g : gen A) : result (list A) :=
  match raised g with
  | None => Ok (yielded g)
  | Some e => Raise e
  end.

(** A generator that maps a fallible function over the items of another
    ([for x in g: yield f(x)]): it yields up to the first failure. *)
Fixpoint gen_map_list {A B : Type} (f : A → result B) (l : list A) (r : option exn) : gen B :=
  match l with
  | [] => Gen [] r
  | x :: l' =>
      match f x with
      | Ok y => let g := gen_map_list f l' r in Gen (y :: yielded g) (raised g)
      | Raise e => Gen [] (Some e)
      end
  end.

Definition gen_map {A B : Type} (f : A → result B) (g : gen A) : gen B :=
  gen_map_list f (yielded g) (raised g).

(** ** Rows and batches *)

(** A row record: field name to value. *)
Abbreviation row := (gmap string pyval).
(** A columnar batch: field name to the column of per-row values. *)
Abbreviation Batch := (gmap string (list pyval)).

(** [d.get(key)]: the value, or [None] when the key is absent. *)
Definition dict_get (d : row) (key : string) : pyval :=
  default PyNone (d !! key).

(** ** zip_dicts *)

(** [all_keys = set(itertools.chain.from_iterable(dicts))]. *)
Definition all_keys (dicts : list row) : gset string :=
  ⋃ (dom <$> dicts).

(** One turn of the outer loop: [for key in all_keys:
    zipped[key].append(d.get(key))].  The keys of [zipped] are exactly
    [all_keys], so the inner loop appends to every column. *)
Definition zip_append (zipped : Batch) (d : row) : Batch :=
  map_imap (fun key col => Some (col ++ [dict_get d key])) zipped.

Definition zip_dicts (dicts : list row) : Batch :=
  let keys := all_keys dicts in
  let zipped : Batch := gset_to_gmap [] keys in
  foldl zip_append zipped dicts.

(** ** Batcher *)

Inductive Stage : Type := TRAIN | EVAL | TEST.

Global Instance Stage_eq_dec : EqDecision Stage.
Proof. solve_decision. Defined.

Definition Stage_to_nat (st : Stage) : nat :=
  match st with TRAIN => 0 | EVAL => 1 | TEST => 2 end.

Definition Stage_of_nat (n : nat) : option Stage :=
  match n with 0 => Some TRAIN | 1 => Some EVAL | 2 => Some TEST | _ => None end.

Global Instance Stage_countable : Countable Stage.
Proof.
  apply (inj_countable Stage_to_nat Stage_of_nat).
  intros []; reflexivity.
Defined.

(** The random source: [shuffle l g] is what [random.shuffle] makes of the
    list [l] when the source is in state [g], with the state it leaves. *)
Class RandomSource (rng : Type) : Type :=
  shuffle : ∀ A : Type, list A → rng → list A * rng.
Arguments shuffle {rng _ A} l g.

(** What [random.shuffle] guarantees: the result is a rearrangement. *)
Class ShufflePermutes (rng : Type) {R : RandomSource rng} : Prop :=
  shuffle_perm : ∀ (A : Type) (l : list A) (g : rng), Permutation l (shuffle l g).1.

(** The shuffle replaced by the identity permutation. *)
Definition identity_shuffle : RandomSource unit := fun _ l g => (l, g).

(** A sort key: a function on rows that may raise. *)
Abbreviation key_fn := (row → result Z).

Record Batcher : Type := mkBatcher {
  train_batch_size : Z;
  eval_batch_size : Z;
  test_batch_size : Z
}.

(** [Batcher.Config]: the defaults of the constructor's arguments. *)
Definition Config_train_batch_size : Z := 16.
Definition Config_eval_batch_size : Z := 16.
Definition Config_test_batch_size : Z := 16.

(** [Batcher.__init__]: stores the three sizes; no statement of it raises. *)
Definition Batcher_init (train_batch_size eval_batch_size test_batch_size : Z)
  : result Batcher :=
  Ok (mkBatcher train_batch_size eval_batch_size test_batch_size).

(** [self._batch_sizes[stage]]. *)
Definition _batch_sizes (b : Batcher) (stage : Stage) : Z :=
  match stage with
  | TRAIN => train_batch_size b
  | TEST => test_batch_size b
  | EVAL => eval_batch_size b
  end.

(** [itertools.zip_longest] applied to [n >= 1] references to ONE iterator
    [it] with items [l] and ending [r]: each tuple takes the next [n] items;
    a tuple that the items cannot fill is completed with [fill] when the
    iterator ends normally and is lost when it raises; nothing is yielded for
    an iterator already at its end. *)
Fixpoint zip_longest_fuel {A : Type} (fuel n : nat) (fill : A) (l : list A)
    (r : option exn) : gen (list A) :=
  match fuel with
  | O => Gen [] r
  | S fuel' =>
      if decide (length l < n) then
        match r with
        | Some e => Gen [] (Some e)
        | None =>
            match l with
            | [] => Gen [] None
            | _ => Gen [l ++ replicate (n - length l) fill] None
            end
        end
      else
        let g := zip_longest_fuel fuel' n fill (drop n l) r in
        Gen (take n l :: yielded g) (raised g)
  end.

(** [iterators = [iter(iterable)] * group_size], then [zip_longest] over
    them.  For [group_size <= 0] the list of iterators is empty, [zip_longest]
    yields nothing and the iterable is never advanced. *)
Definition zip_longest_shared {A : Type} (group_size : Z) (fill : A) (iterable : gen A)
  : gen (list A) :=
  if decide (group_size ≤ 0)%Z then Gen [] None
  else zip_longest_fuel (S (length (yielded iterable))) (Z.to_nat group_size) fill
         (yielded iterable) (raised iterable).

(** Stable insertion by descending key: [x] goes before the first element
    whose key is not greater than its own. *)
Fixpoint insert_desc {A : Type} (x : Z * A) (l : list (Z * A)) : list (Z * A) :=
  match l with
  | [] => [x]
  | y :: l' => if decide (x.1 < y.1)%Z then y :: insert_desc x l' else x :: y :: l'
  end.

Fixpoint sort_desc {A : Type} (l : list (Z * A)) : list (Z * A) :=
  match l with
  | [] => []
  | x :: l' => insert_desc x (sort_desc l')
  end.

(** [group.sort(key=sort_key, reverse=True)]: the keys of all elements are
    computed first, in order (the first failure is raised); the sort is
    stable, rows of equal key keep their order. *)
Definition list_sort_reverse (sort_key : key_fn) (group : list row) : result (list row) :=
  keyed ← mapM_result (fun ex => k ← sort_key ex; Ok (k, ex)) group;
  Ok (snd <$> sort_desc keyed).

(** [[ex for ex in group if ex is not None]]. *)
Definition not_None {A : Type} (group : list (option A)) : list A :=
  omap id group.

(** The body of the loop of [_group_iter] for one tuple [group]. *)
Definition group_step (sort_key : option key_fn) (group : list (option row))
  : result (list row) :=
  let group := not_None group in
  match sort_key with
  | Some key => list_sort_reverse key group
  | None => Ok group
  end.

Definition _group_iter (iterable : gen (option row)) (group_size : Z)
    (sort_key : option key_fn) : gen (list row) :=
  gen_map (group_step sort_key) (zip_longest_shared group_size None iterable).

(** The lists of rows that [Batcher.batchify] hands to [zip_dicts]. *)
Definition Batcher_batch_rows (self : Batcher) (iterable : gen (option row))
    (sort_key : option key_fn) (stage : Stage) : gen (list row) :=
  let batch_size := _batch_sizes self stage in
  _group_iter iterable batch_size sort_key.

Definition Batcher_batchify (self : Batcher) (iterable : gen (option row))
    (sort_key : option key_fn) (stage : Stage) : gen Batch :=
  gen_map (fun b => Ok (zip_dicts b)) (Batcher_batch_rows self iterable sort_key stage).

(** ** PoolingBatcher *)

Record PoolingBatcher : Type := mkPoolingBatcher {
  base : Batcher;
  pool_num_batches : Z
}.

Definition Config_pool_num_batches : Z := 10000.

(** [pool_num_batches or 1], for an argument that is an int or [None]. *)
Definition or_1 (pool_num_batches : option Z) : Z :=
  match pool_num_batches with
  | None => 1
  | Some n => if decide (n = 0)%Z then 1%Z else n
  end.

Definition PoolingBatcher_init (train_batch_size eval_batch_size test_batch_size : Z)
    (pool_num_batches : option Z) : result PoolingBatcher :=
  b ← Batcher_init train_batch_size eval_batch_size test_batch_size;
  Ok (mkPoolingBatcher b (or_1 pool_num_batches)).

(** [math.ceil(a / b)] for ints [a] and [b ≠ 0]; the float quotient is taken
    as exact, which it is for every length a list can have. *)
Definition ceil_div (a b : Z) : Z := (- ((- a) / b))%Z.

(** [list(range(n))]. *)
Definition py_range (n : Z) : list Z :=
  Z.of_nat <$> seq 0 (Z.to_nat n).

(** The bound of a slice brought into [0, len]. *)
Definition slice_bound (len i : Z) : Z :=
  if decide (i < 0)%Z then Z.max 0 (i + len) else Z.min i len.

(** [l[lo:hi]]. *)
Definition py_slice {A : Type} (l : list A) (lo hi : Z) : list A :=
  let len := Z.of_nat (length l) in
  let lo' := slice_bound len lo in
  let hi' := slice_bound len hi in
  take (Z.to_nat (hi' - lo')) (drop (Z.to_nat lo') l).

(** The body of the loop of [PoolingBatcher.batchify] for one pool: the
    lists of rows handed to [zip_dicts], in the order they are yielded. *)
Definition pool_batches {rng : Type} {R : RandomSource rng} (batch_size : Z)
    (sorted : bool) (pool : list row) (g : rng) : result (list (list row)) * rng :=
  if decide (batch_size = 0)%Z then (Raise ZeroDivisionError, g)
  else
    let batch_indices := py_range (ceil_div (Z.of_nat (length pool)) batch_size) in
    let '(batch_indices, pool, g) :=
      if sorted then let '(bi, g') := shuffle batch_indices g in (bi, pool, g')
      else let '(p, g') := shuffle pool g in (batch_indices, p, g') in
    (Ok ((fun batch_index =>
            py_slice pool (batch_size * batch_index) (batch_size * (batch_index + 1)))
         <$> batch_indices), g).

Fixpoint pooling_emit {rng : Type} {R : RandomSource rng} (batch_size : Z) (sorted : bool)
    (pools : list (list row)) (r : option exn) (g : rng) : gen (list row) * rng :=
  match pools with
  | [] => (Gen [] r, g)
  | pool :: pools' =>
      match pool_batches batch_size sorted pool g with
      | (Raise e, g') => (Gen [] (Some e), g')
      | (Ok bs, g') =>
          let '(out, g'') := pooling_emit batch_size sorted pools' r g' in
          (Gen (bs ++ yielded out) (raised out), g'')
      end
  end.

Definition PoolingBatcher_batch_rows {rng : Type} {R : RandomSource rng}
    (self : PoolingBatcher) (iterable : gen (option row)) (sort_key : option key_fn)
    (stage : Stage) (g : rng) : gen (list row) * rng :=
  let batch_size := _batch_sizes (base self) stage in
  let pool_size := (batch_size * pool_num_batches self)%Z in
  let pools := _group_iter iterable pool_size sort_key in
  pooling_emit batch_size (bool_decide (is_Some sort_key)) (yielded pools) (raised pools) g.

Definition PoolingBatcher_batchify {rng : Type} {R : RandomSource rng}
    (self : PoolingBatcher) (iterable : gen (option row)) (sort_key : option key_fn)
    (stage : Stage) (g : rng) : gen Batch * rng :=
  let '(rows, g') := PoolingBatcher_batch_rows self iterable sort_key stage g in
  (gen_map (fun b => Ok (zip_dicts b)) rows, g').

(** ** Tensorizers and data sources: the interfaces the pipeline consumes *)

(** What [tensorize] receives: the whole batch for a [MetricTensorizer], the
    column of its own field otherwise. *)
Inductive tensorize_arg : Type :=
  | WholeBatch (b : Batch)
  | Column (c : list pyval).

(** A tensorizer, as far as [data.py] uses one; [T] is the type of tensors. *)
Record Tensorizer (T : Type) : Type := mkTensorizer {
  is_metric : bool;
  numberize : row → result pyval;
  tensorizer_sort_key : pyval → result Z;
  tensorize : tensorize_arg → result T
}.
Arguments mkTensorizer {T}.
Arguments is_metric {T}.
Arguments numberize {T}.
Arguments tensorizer_sort_key {T}.
Arguments tensorize {T}.

(** A data source: the rows of each phase; the argument counts the readings
    of the source so far, for a source whose content changes between them. *)
Record DataSource : Type := mkDataSource {
  train : nat → list row;
  test : nat → list row;
  eval : nat → list row
}.

(** [d[key]] on an insertion-ordered dict. *)
Fixpoint dict_lookup {V : Type} (d : list (string * V)) (key : string) : option V :=
  match d with
  | [] => None
  | (k, v) :: d' => if decide (k = key) then Some v else dict_lookup d' key
  end.

(** ** pad_and_tensorize_batches *)

Fixpoint tensorize_fields {T : Type} (tensorizers : list (string * Tensorizer T))
    (b : Batch) (tensor_dict : gmap string T) : result (gmap string T) :=
  match tensorizers with
  | [] => Ok tensor_dict
  | (name, tensorizer) :: rest =>
      t ← (if is_metric tensorizer then tensorize tensorizer (WholeBatch b)
           else match b !! name with
                | Some col => tensorize tensorizer (Column col)
                | None => Raise (KeyError name)
                end);
      tensorize_fields rest b (<[name := t]> tensor_dict)
  end.

Definition pad_and_tensorize_batches {T : Type}
    (tensorizers : list (string * Tensorizer T)) (batches : gen Batch)
  : gen (gmap string T) :=
  gen_map (fun b => tensorize_fields tensorizers b ∅) batches.

(** ** Data *)

Inductive AnyBatcher : Type :=
  | PlainBatcher (b : Batcher)
  | Pooling (b : PoolingBatcher).

(** The attributes of [Data] that [__init__] sets once. *)
Record Data (T : Type) : Type := mkData {
  data_source : DataSource;
  tensorizers : list (string * Tensorizer T);
  batcher : AnyBatcher;
  sort_key : option string;
  epoch_size : option Z;
  in_memory : bool
}.
Arguments mkData {T}.
Arguments data_source {T}.
Arguments tensorizers {T}.
Arguments batcher {T}.
Arguments sort_key {T}.
Arguments epoch_size {T}.
Arguments in_memory {T}.

(** The attributes of [Data] that change, with the two pieces of the world
    the pipeline touches: the random source and the count of readings of the
    data source. *)
Record DataState (T rng : Type) : Type := mkDataState {
  batch : gmap Stage (gen (gmap string T));
  numberized_cache : gmap Stage (list row);
  num_batches : Z;
  random_state : rng;
  reads : nat
}.
Arguments mkDataState {T rng}.
Arguments batch {T rng}.
Arguments numberized_cache {T rng}.
Arguments num_batches {T rng}.
Arguments random_state {T rng}.
Arguments reads {T rng}.

Definition set_batch {T rng} (f : gmap Stage (gen (gmap string T)) → gmap Stage (gen (gmap string T)))
    (s : DataState T rng) : DataState T rng :=
  mkDataState (f (batch s)) (numberized_cache s) (num_batches s) (random_state s) (reads s).

Definition set_numberized_cache {T rng} (c : gmap Stage (list row))
    (s : DataState T rng) : DataState T rng :=
  mkDataState (batch s) c (num_batches s) (random_state s) (reads s).

Definition set_num_batches {T rng} (n : Z) (s : DataState T rng) : DataState T rng :=
  mkDataState (batch s) (numberized_cache s) n (random_state s) (reads s).

Definition set_random_state {T rng} (g : rng) (s : DataState T rng) : DataState T rng :=
  mkDataState (batch s) (numberized_cache s) (num_batches s) g (reads s).

Definition count_read {T rng} (s : DataState T rng) : DataState T rng :=
  mkDataState (batch s) (numberized_cache s) (num_batches s) (random_state s) (S (reads s)).

(** [Data.__init__]: [batcher or Batcher()], no cursor, an empty cache. *)
Definition Data_init {T : Type} (data_source : DataSource)
    (tensorizers : list (string * Tensorizer T)) (batcher : option AnyBatcher)
    (sort_key : option string) (epoch_size : option Z) (in_memory : bool) : Data T :=
  mkData data_source tensorizers
    (default (PlainBatcher (mkBatcher Config_train_batch_size Config_eval_batch_size
                              Config_test_batch_size)) batcher)
    sort_key epoch_size in_memory.

Definition DataState_init {T rng : Type} (g : rng) : DataState T rng :=
  mkDataState ∅ ∅ 0 g 0.

(** The dict comprehension of [numberize_rows], in the order of
    [tensorizers.items()]. *)
Fixpoint numberize_fields {T : Type} (tensorizers : list (string * Tensorizer T))
    (r : row) (acc : row) : result row :=
  match tensorizers with
  | [] => Ok acc
  | (name, tensorizer) :: rest =>
      v ← numberize tensorizer r;
      numberize_fields rest r (<[name := v]> acc)
  end.

Definition numberize_rows {T : Type} (self : Data T) (rows : gen row) : gen row :=
  gen_map (fun r => numberize_fields (tensorizers self) r ∅) rows.

(** The [sort_key] argument [_get_batches] passes to [batchify]: the lambda
    when [self.sort_key] is a non-empty string, [None] otherwise.  The lambda
    looks the tensorizer up first, then the field of the row. *)
Definition Data_sort_key_fn {T : Type} (self : Data T) : option key_fn :=
  match sort_key self with
  | None => None
  | Some name =>
      if decide (name = EmptyString) then None
      else Some (fun r : row =>
             match dict_lookup (tensorizers self) name with
             | None => Raise (KeyError name)
             | Some tensorizer =>
                 match r !! name with
                 | None => Raise (KeyError name)
                 | Some v => tensorizer_sort_key tensorizer v
                 end
             end)
  end.

Definition stage_rows (data_source : DataSource) (stage : Stage) : nat → list row :=
  match stage with
  | TRAIN => train data_source
  | TEST => test data_source
  | EVAL => eval data_source
  end.

(** [self.batcher.batchify(numberized_rows, sort_key=...)]: the stage is not
    passed, so it is the default [Stage.TRAIN] for every phase. *)
Definition batcher_batchify {rng : Type} {R : RandomSource rng} (b : AnyBatcher)
    (iterable : gen (option row)) (sort_key : option key_fn) (g : rng)
  : gen Batch * rng :=
  match b with
  | PlainBatcher b => (Batcher_batchify b iterable sort_key TRAIN, g)
  | Pooling b => PoolingBatcher_batchify b iterable sort_key TRAIN g
  end.

(** Lines 270-278 of [_get_batches]: the numberized rows of the phase, from
    the cache or from a reading of the source.  [list(...)] runs the
    numberize generator to its end at once; without the cache the generator is
    handed on unconsumed. *)
Definition get_numberized_rows {T rng : Type} (self : Data T) (stage : Stage)
    (rows : nat → list row) (s : DataState T rng) : result (gen row) * DataState T rng :=
  if in_memory self then
    match numberized_cache s !! stage with
    | Some (r :: l) => (Ok (gen_of_list (r :: l)), s)
    | _ =>
        match list_of_gen (numberize_rows self (gen_of_list (rows (reads s)))) with
        | Ok numberized_rows =>
            (Ok (gen_of_list numberized_rows),
             set_numberized_cache (<[stage := numberized_rows]> (numberized_cache s))
               (count_read s))
        | Raise e => (Raise e, count_read s)
        end
    end
  else (Ok (numberize_rows self (gen_of_list (rows (reads s)))), count_read s).

(** [_get_batches]: the live cursor of the phase, or a new one.  The calls
    that make the new cursor create generators and run none of their bodies;
    only [list(...)] of the cached path can raise here.  What the bodies will
    raise is in the trace that is stored as the cursor. *)
Definition _get_batches {T rng : Type} {R : RandomSource rng} (self : Data T) (stage : Stage)
    (data_source : DataSource) (s : DataState T rng)
  : result (gen (gmap string T)) * DataState T rng :=
  match batch s !! stage with
  | Some cursor => (Ok cursor, s)
  | None =>
      let rows := stage_rows data_source stage in
      match get_numberized_rows self stage rows s with
      | (Raise e, s1) => (Raise e, s1)
      | (Ok numberized_rows, s1) =>
          let '(batches, g) :=
            batcher_batchify (batcher self)
              (Gen (Some <$> yielded numberized_rows) (raised numberized_rows))
              (Data_sort_key_fn self) (random_state s1) in
          let cursor := pad_and_tensorize_batches (tensorizers self) batches in
          (Ok cursor, set_batch (<[stage := cursor]>) (set_random_state g s1))
      end
  end.

(** How the [for] loop of [batches] over the cursor ends. *)
Record for_outcome (X : Type) : Type := mkForOutcome {
  for_yielded : list X;      (* the batches yielded to the caller *)
  for_rest : list X;         (* what the cursor still holds *)
  for_num_batches : Z;       (* [self.num_batches] at the end *)
  for_returned : bool        (* [true]: left by [return] at the epoch bound *)
}.
Arguments mkForOutcome {X}.
Arguments for_yielded {X}.
Arguments for_rest {X}.
Arguments for_num_batches {X}.
Arguments for_returned {X}.

(** [for batch in cursor: ...] over the items the cursor will still yield.
    The batch is taken from the cursor before the epoch test is made. *)
Fixpoint for_batches {X : Type} (stage : Stage) (epoch_size : option Z)
    (items : list X) (num_batches : Z) : for_outcome X :=
  match items with
  | [] => mkForOutcome [] [] num_batches false
  | b :: rest =>
      if bool_decide (stage = TRAIN) && bool_decide (Some num_batches = epoch_size) then
        mkForOutcome [] rest 0 true
      else
        let o := for_batches stage epoch_size rest (num_batches + 1) in
        mkForOutcome (b :: for_yielded o) (for_rest o) (for_num_batches o) (for_returned o)
  end.

(** [not self.epoch_size]. *)
Definition no_epoch_size (epoch_size : option Z) : bool :=
  match epoch_size with
  | None => true
  | Some n => bool_decide (n = 0%Z)
  end.

(** The [while True] loop of [batches], run until the generator ends, with
    [acc] the batches yielded so far.  [fuel] bounds the number of turns of the
    loop; [None] means the bound was reached. *)
Fixpoint batches_loop {T rng : Type} {R : RandomSource rng} (fuel : nat) (self : Data T)
    (stage : Stage) (data_source : DataSource) (s : DataState T rng)
    (acc : list (gmap string T)) : option (gen (gmap string T) * DataState T rng) :=
  match fuel with
  | O => None
  | S fuel' =>
      match _get_batches self stage data_source s with
      | (Raise e, s1) => Some (Gen acc (Some e), s1)
      | (Ok cursor, s1) =>
          let o := for_batches stage (epoch_size self) (yielded cursor) (num_batches s1) in
          let s2 := set_num_batches (for_num_batches o) s1 in
          let acc := acc ++ for_yielded o in
          if for_returned o then
            Some (Gen acc None,
                  set_batch (<[stage := Gen (for_rest o) (raised cursor)]>) s2)
          else
            match raised cursor with
            | Some e =>
                Some (Gen acc (Some e), set_batch (<[stage := Gen [] None]>) s2)
            | None =>
                let s3 := set_batch (delete stage) s2 in
                if negb (bool_decide (stage = TRAIN)) || no_epoch_size (epoch_size self)
                then Some (Gen acc None, s3)
                else batches_loop fuel' self stage data_source s3 acc
            end
      end
  end.

(** One traversal of [Data.batches(stage, data_source)], run to its end. *)
Definition batches {T rng : Type} {R : RandomSource rng} (fuel : nat) (self : Data T)
    (stage : Stage) (data_source' : option DataSource) (s : DataState T rng)
  : option (gen (gmap string T) * DataState T rng) :=
  let data_source := default (data_source self) data_source' in
  batches_loop fuel self stage data_source (set_num_batches 0 s) [].
(** ** Consecutive pieces of a list (used to state and prove the properties) *)

(** [chunks n l]: [l] cut into consecutive pieces of [n] elements, the last
    one shorter when [n] does not divide the length. *)
Fixpoint chunks_fuel {A : Type} (fuel n : nat) (l : list A) : list (list A) :=
  match fuel with
  | O => []
  | S fuel' =>
      match l with
      | [] => []
      | _ => take n l :: chunks_fuel fuel' n (drop n l)
      end
  end.

Definition chunks {A : Type} (n : nat) (l : list A) : list (list A) :=
  chunks_fuel (length l) n l.

(** A tuple of [zip_longest]: a piece of the input, filled up to [n] items. *)
Definition fill_up {A : Type} (n : nat) (fill : A) (c : list A) : list A :=
  c ++ replicate (n - length c) fill.

(** Rows in non-increasing order of their sort key, the key defined on each. *)
Definition sorted_by_key_desc (sort_key : key_fn) (rows : list row) : Prop :=
  ∃ ks, mapM_result sort_key rows = Ok ks ∧ StronglySorted (λ a b : Z, (b ≤ a)%Z) ks.

(** ** Concrete inputs (the scenario of the specification and others) *)

Definition scenario_row (n : Z) : row := {[ "a"%string := PyInt n ]}.

Definition scenario_rows : list row :=
  [scenario_row 1; scenario_row 2; scenario_row 3; scenario_row 4; scenario_row 5].

Definition scenario_batcher : PoolingBatcher :=
  mkPoolingBatcher (mkBatcher 2 2 2) Config_pool_num_batches.

(** A shuffle that reverses, for examples with a visible rearrangement. *)
Definition reverse_shuffle : RandomSource unit := fun _ l g => (reverse l, g).

(** The sort key of the examples: the integer in field [a]. *)
Definition scenario_key : key_fn := fun r =>
  match r !! "a"%string with
  | Some (PyInt n) => Ok n
  | _ => Raise (KeyError "a")
  end.

(** An input whose first tuple of two is all [None]. *)
Definition input_with_None : list (option row) :=
  [None; None; Some (scenario_row 1); Some (scenario_row 2)].


(** A tensorizer for field [a] of the examples: it numberizes a row to its
    field [a] (and raises on a row without it), sorts by the integer, and its
    tensor is the column itself. *)
Definition field_a_tensorizer : Tensorizer (list pyval) :=
  mkTensorizer false
    (fun r => match r !! "a"%string with
              | Some v => Ok v
              | None => Raise (ConverterError "a")
              end)
    (fun v => match v with PyInt n => Ok n | _ => Raise (ConverterError "sort_key") end)
    (fun arg => match arg with Column c => Ok c | WholeBatch _ => Ok [] end).

(** A source whose [eval] stream is empty at the first reading and has one
    row afterwards; its [train] stream always has the five rows. *)
Definition growing_source : DataSource :=
  mkDataSource (fun _ => scenario_rows) (fun _ => [])
    (fun n => match n with O => [] | S _ => [scenario_row 7] end).

(** A source whose [train] stream has a row without field [a] in second
    place. *)
Definition broken_source : DataSource :=
  mkDataSource (fun _ => [scenario_row 1; {[ "b"%string := PyInt 2 ]}; scenario_row 3])
    (fun _ => []) (fun _ => []).

Definition example_data (source : DataSource) (sort_key : option string)
    (epoch_size : option Z) (in_memory : bool) : Data (list pyval) :=
  Data_init source [("a"%string, field_a_tensorizer)]
    (Some (PlainBatcher (mkBatcher 2 2 2))) sort_key epoch_size in_memory.

(** Some converter of [self] raises [e] on some row of [rows]. *)
Definition converter_raises {T : Type} (self : Data T) (rows : list row) (e : exn) : Prop :=
  ∃ (i : nat) r name t,
    rows !! i = Some r ∧ (name, t) ∈ tensorizers self ∧ numberize t r = Raise e.

(** Every derivation of the [TRAIN] stream from a state satisfying [Inv]
    gives [M] batches and ends normally, and [Inv] is kept; [Inv] speaks of
    the cache, the random source and the readings only: changing the cursors
    or the batch counter does not touch it. *)
Definition supplies {T rng : Type} {R : RandomSource rng} (self : Data T)
    (source : DataSource) (M : nat) (Inv : DataState T rng → Prop) : Prop :=
  (∀ s f n, Inv s → Inv (set_batch f (set_num_batches n s)))
  ∧ ∀ s, Inv s → batch s !! TRAIN = None →
         ∃ items s', _get_batches self TRAIN source s = (Ok (Gen items None), s')
                     ∧ length items = M ∧ Inv s'.

(** The names of the tensorizers: the keys of the [tensorizers] dict. *)
Definition tensorizer_names {T : Type} (tensorizers : list (string * Tensorizer T))
  : gset string :=
  list_to_set (tensorizers.*1).

(** A source without any row. *)
Definition empty_source : DataSource :=
  mkDataSource (fun _ => []) (fun _ => []) (fun _ => []).

(** ** Properties of zip_dicts *)
Section zip_dicts_facts.
Implicit Types (dicts : list row) (d : row) (key : string) (zipped : Batch).

Lemma elem_of_all_keys dicts key :
  key ∈ all_keys dicts ↔ ∃ d, d ∈ dicts ∧ is_Some (d !! key).
Proof.
  unfold all_keys. rewrite elem_of_union_list. split.
  - intros (X & HX & Hk). apply list_elem_of_fmap in HX as (d & -> & Hd).
    exists d. split; [done|]. by apply elem_of_dom.
  - intros (d & Hd & Hk). exists (dom d). split.
    + apply list_elem_of_fmap. eauto.
    + by apply elem_of_dom.
Qed.

Lemma zip_append_lookup zipped d key :
  zip_append zipped d !! key = (λ col, col ++ [dict_get d key]) <$> zipped !! key.
Proof.
  unfold zip_append. rewrite map_lookup_imap.
  by destruct (zipped !! key).
Qed.

Lemma foldl_zip_append_lookup dicts zipped key :
  foldl zip_append zipped dicts !! key
  = (λ col, col ++ ((λ d, dict_get d key) <$> dicts)) <$> zipped !! key.
Proof.
  revert zipped. induction dicts as [|d dicts IH]; intros zipped; simpl.
  - destruct (zipped !! key); simpl; [|done]. by rewrite app_nil_r.
  - rewrite IH, zip_append_lookup.
    destruct (zipped !! key) as [col|]; simpl; [|done].
    by rewrite <- app_assoc.
Qed.

Lemma zip_dicts_lookup dicts key :
  zip_dicts dicts !! key
  = if decide (key ∈ all_keys dicts) then Some ((λ d, dict_get d key) <$> dicts)
    else None.
Proof.
  unfold zip_dicts. rewrite foldl_zip_append_lookup, lookup_gset_to_gmap.
  destruct (decide (key ∈ all_keys dicts)) as [Hk|Hk].
  - by rewrite option_guard_True.
  - by rewrite option_guard_False.
Qed.

Lemma zip_dicts_dom dicts : dom (zip_dicts dicts) = all_keys dicts.
Proof.
  apply set_eq. intros key. rewrite elem_of_dom, zip_dicts_lookup.
  destruct (decide (key ∈ all_keys dicts)); split; intros H; done.
Qed.

Lemma zip_dicts_nil : zip_dicts [] = ∅.
Proof. reflexivity. Qed.

Lemma all_keys_replicate_S (N : nat) key (v : pyval) :
  all_keys (replicate (S N) {[key := v]}) = {[key]}.
Proof.
  apply set_eq. intros k. rewrite elem_of_all_keys, elem_of_singleton. split.
  - intros (d & Hd & Hk). apply elem_of_replicate in Hd as [-> _].
    destruct (decide (key = k)) as [->|Hne]; [done|].
    rewrite lookup_singleton_ne in Hk by done. by destruct Hk.
  - intros ->. exists {[key := v]}. split.
    + apply elem_of_replicate. split; [done|lia].
    + rewrite lookup_singleton_eq. eauto.
Qed.

Lemma zip_dicts_replicate_S (N : nat) key (v : pyval) :
  zip_dicts (replicate (S N) {[key := v]}) = {[key := replicate (S N) v]}.
Proof.
  apply map_eq. intros k. rewrite zip_dicts_lookup, all_keys_replicate_S.
  destruct (decide (k ∈ ({[key]} : gset string))) as [Hk|Hk].
  - apply elem_of_singleton in Hk as ->. rewrite lookup_singleton_eq.
    f_equal. rewrite fmap_replicate. unfold dict_get.
    by rewrite lookup_singleton_eq.
  - rewrite lookup_singleton_ne; [done|]. intros ->. apply Hk. by apply elem_of_singleton.
Qed.
End zip_dicts_facts.

(** ** Consecutive pieces of a list *)
Section chunks_facts.
Context {A : Type}.
Implicit Types (l : list A) (n : nat).

(** Induction along the recursion of [chunks]. *)
Lemma drop_induction n (Hn : 0 < n) (P : list A → Prop) :
  P [] →
  (∀ l, l ≠ [] → P (drop n l) → P l) →
  ∀ l, P l.
Proof.
  intros Hnil Hstep l.
  remember (length l) as len eqn:Hlen.
  revert l Hlen. induction (lt_wf len) as [len _ IH]. intros l ->.
  destruct l as [|x l]; [done|].
  apply Hstep; [done|].
  eapply IH; [|done]. rewrite length_drop. simpl. lia.
Qed.

Lemma chunks_fuel_enough n l f1 f2 :
  0 < n → length l ≤ f1 → length l ≤ f2 →
  chunks_fuel f1 n l = chunks_fuel f2 n l.
Proof.
  intros Hn. revert l f2.
  induction f1 as [|f1 IH]; intros l f2 H1 H2.
  - destruct l; [|simpl in H1; lia]. by destruct f2.
  - destruct l as [|x l]; [by destruct f2|].
    destruct f2 as [|f2]; [simpl in H2; lia|].
    cbn [chunks_fuel]. f_equal.
    apply IH; rewrite length_drop; simpl in *; lia.
Qed.

Lemma chunks_nil n : chunks n ([] : list A) = [].
Proof. reflexivity. Qed.

Lemma chunks_unfold n l :
  0 < n → l ≠ [] → chunks n l = take n l :: chunks n (drop n l).
Proof.
  intros Hn Hl. unfold chunks.
  destruct l as [|x l]; [done|].
  cbn [length chunks_fuel]. f_equal.
  apply chunks_fuel_enough; [done| |done].
  rewrite length_drop. simpl. lia.
Qed.

Lemma concat_chunks n l : 0 < n → concat (chunks n l) = l.
Proof.
  intros Hn. induction l as [|l Hl IH] using (drop_induction n Hn); [done|].
  rewrite chunks_unfold by done. simpl. rewrite IH. apply take_drop.
Qed.

Lemma chunks_lookup n l (i : nat) :
  0 < n →
  chunks n l !! i
  = if decide (i * n < length l) then Some (take n (drop (i * n) l)) else None.
Proof.
  intros Hn. revert i.
  induction l as [|l Hl IH] using (drop_induction n Hn); intros i.
  - rewrite chunks_nil. case_decide; [simpl in *; lia|done].
  - rewrite chunks_unfold by done.
    assert (0 < length l) by (destruct l; [done|simpl; lia]).
    destruct i as [|i]; simpl.
    + by rewrite decide_True by lia.
    + rewrite IH, length_drop, drop_drop.
      replace (n + i * n) with (n + i * n) by lia.
      destruct (decide (i * n < length l - n)), (decide (n + i * n < length l));
        try lia; done.
Qed.

Lemma length_chunks n l :
  0 < n → length (chunks n l) = (length l + n - 1) `div` n.
Proof.
  intros Hn.
  induction l as [|l Hl IH] using (drop_induction n Hn).
  - rewrite chunks_nil. simpl. symmetry. apply Nat.div_small. lia.
  - rewrite chunks_unfold by done. simpl. rewrite IH, length_drop.
    assert (0 < length l) by (destruct l; [done|simpl; lia]).
    destruct (decide (length l < n)) as [Hlt|Hge].
    + replace (length l - n + n - 1) with (n - 1) by lia.
      rewrite (Nat.div_small (n - 1)) by lia.
      apply (Nat.div_unique _ _ _ (length l - 1)); lia.
    + replace (length l + n - 1) with ((length l - n + n - 1) + 1 * n) by lia.
      rewrite Nat.div_add by lia. lia.
Qed.

Lemma chunks_app n l1 l2 (k : nat) :
  0 < n → length l1 = k * n → chunks n (l1 ++ l2) = chunks n l1 ++ chunks n l2.
Proof.
  intros Hn. revert l1. induction k as [|k IH]; intros l1 Hlen.
  - destruct l1; [done|simpl in Hlen; lia].
  - assert (l1 ≠ []) by (intros ->; simpl in Hlen; lia).
    rewrite (chunks_unfold n l1) by done.
    rewrite (chunks_unfold n (l1 ++ l2)) by (destruct l1; done).
    simpl. rewrite take_app_le, drop_app_le by lia.
    f_equal. apply IH. rewrite length_drop. lia.
Qed.

Lemma chunks_small n l : 0 < n → l ≠ [] → length l ≤ n → chunks n l = [l].
Proof.
  intros Hn Hl Hlen. rewrite chunks_unfold by done.
  rewrite take_ge, drop_ge by lia. by rewrite chunks_nil.
Qed.

(** Cutting into pieces of [n * p] and each piece into pieces of [n] is
    cutting into pieces of [n]. *)
Lemma concat_chunks_chunks n p l :
  0 < n → 0 < p → concat (chunks n <$> chunks (n * p) l) = chunks n l.
Proof.
  intros Hn Hp.
  induction l as [|l Hl IH] using (drop_induction (n * p) ltac:(nia)); [done|].
  rewrite (chunks_unfold (n * p)) by (done || nia).
  rewrite fmap_cons, concat_cons, IH.
  destruct (decide (length l ≤ n * p)) as [Hle|Hgt].
  - rewrite take_ge, drop_ge by lia. by rewrite chunks_nil, app_nil_r.
  - rewrite <- (chunks_app n _ _ p); [by rewrite take_drop|done|].
    rewrite length_take. lia.
Qed.

Lemma chunks_Forall_length n l :
  0 < n → Forall (λ c, 0 < length c ≤ n) (chunks n l).
Proof.
  intros Hn. induction l as [|l Hl IH] using (drop_induction n Hn).
  - by rewrite chunks_nil.
  - rewrite chunks_unfold by done. constructor; [|done].
    rewrite length_take. destruct l; [done|simpl; lia].
Qed.
End chunks_facts.

(** ** Generators *)
Section gen_facts.
Context {A B : Type}.
Implicit Types (f : A → result B) (g : gen A).

Lemma gen_map_list_total f (h : A → B) l r :
  (∀ x, x ∈ l → f x = Ok (h x)) →
  gen_map_list f l r = Gen (h <$> l) r.
Proof.
  induction l as [|x l IH]; intros Hf; simpl; [done|].
  rewrite Hf by left. rewrite IH; [done|].
  intros y Hy. apply Hf. by right.
Qed.

Lemma gen_map_total f (h : A → B) g :
  (∀ x, x ∈ yielded g → f x = Ok (h x)) →
  gen_map f g = Gen (h <$> yielded g) (raised g).
Proof. apply gen_map_list_total. Qed.

(** What a mapped generator yields are the images of a prefix of the
    source. *)
Lemma gen_map_list_Forall2 f l r :
  Forall2 (λ x y, f x = Ok y)
    (take (length (yielded (gen_map_list f l r))) l)
    (yielded (gen_map_list f l r)).
Proof.
  induction l as [|x l IH]; simpl; [constructor|].
  destruct (f x) as [y|e] eqn:Hfx; simpl; [|constructor].
  constructor; done.
Qed.

Lemma gen_map_Forall f g (P : B → Prop) :
  (∀ x y, x ∈ yielded g → f x = Ok y → P y) →
  Forall P (yielded (gen_map f g)).
Proof.
  intros HP. unfold gen_map.
  pose proof (gen_map_list_Forall2 f (yielded g) (raised g)) as H2.
  apply Forall_forall. intros y Hy.
  apply list_elem_of_lookup in Hy as [i Hi].
  destruct (Forall2_lookup_r _ _ _ _ _ H2 Hi) as (x & Hx & Hfx).
  apply (HP x); [|done].
  apply lookup_take_Some in Hx as [Hx _].
  by eapply list_elem_of_lookup_2.
Qed.

(** The first failure of [f] on the items is what the mapped generator
    raises. *)
Lemma gen_map_list_raises f l r (i : nat) x e :
  l !! i = Some x → f x = Raise e →
  ∃ e', raised (gen_map_list f l r) = Some e'.
Proof.
  revert i. induction l as [|y l IH]; intros i Hi Hfx; [done|].
  simpl. destruct (f y) as [z|e'] eqn:Hfy; simpl; [|eauto].
  destruct i as [|i]; simpl in Hi.
  - congruence.
  - by eapply IH.
Qed.
End gen_facts.

(** ** Grouping *)
Section group_facts.
Context {A : Type}.
Implicit Types (l : list A) (n : nat) (fill : A).

Lemma zip_longest_fuel_None fuel n fill l :
  0 < n → length l < fuel →
  zip_longest_fuel fuel n fill l None = Gen (fill_up n fill <$> chunks n l) None.
Proof.
  intros Hn. revert l. induction fuel as [|fuel IH]; intros l Hfuel; [lia|].
  cbn [zip_longest_fuel]. case_decide as Hlen.
  - destruct l as [|x l]; [done|].
    rewrite chunks_small by (done || lia). done.
  - assert (l ≠ []) by (destruct l; [simpl in Hlen; lia|done]).
    rewrite IH by (rewrite length_drop; lia).
    rewrite (chunks_unfold n l) by done. simpl.
    unfold fill_up at 2. rewrite length_take.
    replace (n - n `min` length l) with 0 by lia.
    by rewrite app_nil_r.
Qed.

Lemma zip_longest_fuel_raised fuel n fill l r :
  0 < n → length l < fuel →
  raised (zip_longest_fuel fuel n fill l r) = r.
Proof.
  intros Hn. revert l. induction fuel as [|fuel IH]; intros l Hfuel; [lia|].
  cbn [zip_longest_fuel]. case_decide as Hlen.
  - destruct r; [done|]. by destruct l.
  - simpl. apply IH. rewrite length_drop. lia.
Qed.

(** Every item of a tuple is an item of the input or the fill value. *)
Lemma zip_longest_fuel_elem fuel n fill l r t x :
  t ∈ yielded (zip_longest_fuel fuel n fill l r) → x ∈ t → x ∈ l ∨ x = fill.
Proof.
  revert l. induction fuel as [|fuel IH]; intros l Ht Hx; [by apply elem_of_nil in Ht|].
  cbn [zip_longest_fuel] in Ht. case_decide as Hlen.
  - destruct r; [by apply elem_of_nil in Ht|].
    destruct l as [|y l]; [by apply elem_of_nil in Ht|].
    apply list_elem_of_singleton in Ht as ->.
    apply elem_of_app in Hx as [Hx|Hx]; [by left|].
    apply elem_of_replicate in Hx as [-> _]. by right.
  - simpl in Ht. apply elem_of_cons in Ht as [->|Ht].
    + left. by eapply subseteq_take.
    + destruct (IH _ Ht Hx) as [Hd| ->]; [|by right].
      left. by eapply subseteq_drop.
Qed.

Lemma zip_longest_shared_nonpos (group_size : Z) fill (iterable : gen A) :
  (group_size ≤ 0)%Z → zip_longest_shared group_size fill iterable = Gen [] None.
Proof. intros H. unfold zip_longest_shared. by rewrite decide_True. Qed.

Lemma zip_longest_shared_list (group_size : Z) fill l :
  (0 < group_size)%Z →
  zip_longest_shared group_size fill (gen_of_list l)
  = Gen (fill_up (Z.to_nat group_size) fill <$> chunks (Z.to_nat group_size) l) None.
Proof.
  intros H. unfold zip_longest_shared. rewrite decide_False by lia.
  apply zip_longest_fuel_None; simpl; lia.
Qed.

Lemma chunks_fmap {B : Type} (f : A → B) n l :
  0 < n → chunks n (fmap (M:=list) f l) = fmap (M:=list) (fmap (M:=list) f) (chunks n l).
Proof.
  intros Hn. induction l as [|l Hl IH] using (drop_induction n Hn); [done|].
  rewrite (chunks_unfold n l), (chunks_unfold n (f <$> l)); [|done|by destruct l|done..].
  by rewrite fmap_cons, <- IH, fmap_take, fmap_drop.
Qed.
End group_facts.

(** ** Sorting *)
Section sort_facts.
Context {A : Type}.
Implicit Types (l : list (Z * A)) (x : Z * A).

Lemma insert_desc_Permutation x l : insert_desc x l ≡ₚ x :: l.
Proof.
  induction l as [|y l IH]; simpl; [done|].
  case_decide; [|done].
  rewrite IH. apply Permutation_swap.
Qed.

Lemma sort_desc_Permutation l : sort_desc l ≡ₚ l.
Proof.
  induction l as [|x l IH]; simpl; [done|].
  by rewrite insert_desc_Permutation, IH.
Qed.

Lemma insert_desc_sorted x l :
  StronglySorted (λ a b, (b.1 ≤ a.1)%Z) l →
  StronglySorted (λ a b, (b.1 ≤ a.1)%Z) (insert_desc x l).
Proof.
  induction 1 as [|y l Hl IH Hy]; simpl.
  - repeat constructor.
  - case_decide as Hlt.
    + constructor; [done|].
      rewrite insert_desc_Permutation. constructor; [lia|done].
    + constructor; [by constructor|].
      constructor; [lia|].
      eapply Forall_impl; [exact Hy|]. simpl. intros z Hz. lia.
Qed.

Lemma sort_desc_sorted l : StronglySorted (λ a b, (b.1 ≤ a.1)%Z) (sort_desc l).
Proof.
  induction l as [|x l IH]; simpl; [constructor|].
  by apply insert_desc_sorted.
Qed.

Lemma StronglySorted_fmap_fst l :
  StronglySorted (λ a b, (b.1 ≤ a.1)%Z) l →
  StronglySorted (λ a b : Z, (b ≤ a)%Z) (fst <$> l).
Proof.
  induction 1 as [|y l Hl IH Hy]; simpl; constructor; [done|].
  by apply Forall_fmap.
Qed.
End sort_facts.

Section mapM_facts.
Context {A B : Type}.
Implicit Types (f : A → result B) (l : list A).

Lemma mapM_result_Ok f l ys :
  mapM_result f l = Ok ys ↔ Forall2 (λ x y, f x = Ok y) l ys.
Proof.
  revert ys. induction l as [|x l IH]; intros ys; simpl.
  - split; [intros [= <-]; constructor|]. by inversion 1.
  - destruct (f x) as [y|e] eqn:Hfx; simpl.
    + destruct (mapM_result f l) as [ys'|e] eqn:Hl; simpl.
      * split.
        -- intros [= <-]. constructor; [done|]. by apply IH.
        -- inversion 1 as [|? y' ? ys'' Hy Hys]; subst.
           apply IH in Hys. congruence.
      * split; [done|].
        inversion 1 as [|? y' ? ys'' Hy Hys]; subst.
        apply IH in Hys. congruence.
    + split; [done|]. inversion 1; congruence.
Qed.

Lemma mapM_result_total f (h : A → B) l :
  (∀ x, x ∈ l → f x = Ok (h x)) → mapM_result f l = Ok (h <$> l).
Proof.
  intros Hf. apply mapM_result_Ok.
  apply Forall2_fmap_r, Forall_Forall2_diag, Forall_forall. auto.
Qed.
End mapM_facts.

Section list_sort_facts.
Implicit Types (sort_key : key_fn) (group : list row).

Lemma list_sort_reverse_Ok sort_key group out :
  list_sort_reverse sort_key group = Ok out →
  out ≡ₚ group ∧ sorted_by_key_desc sort_key out.
Proof.
  unfold list_sort_reverse. intros Hsort.
  destruct (mapM_result _ group) as [keyed|e] eqn:Hkeyed; simpl in Hsort; [|done].
  injection Hsort as <-.
  apply mapM_result_Ok in Hkeyed.
  assert (group = snd <$> keyed ∧ Forall (λ p, sort_key p.2 = Ok p.1) keyed)
    as [-> Hkeys].
  { clear -Hkeyed. induction Hkeyed as [|ex p group keyed Hp _ [IH1 IH2]]; [done|].
    destruct (sort_key ex) as [k|] eqn:Hk; simpl in Hp; [|done].
    injection Hp as <-. simpl. split; [by f_equal|by constructor]. }
  split.
  - by rewrite sort_desc_Permutation.
  - exists (fst <$> sort_desc keyed). split.
    + apply mapM_result_Ok.
      apply Forall2_fmap, Forall_Forall2_diag.
      by rewrite sort_desc_Permutation.
    + apply StronglySorted_fmap_fst, sort_desc_sorted.
Qed.

End list_sort_facts.

(** ** Slices and the batches of one pool *)
Section slice_facts.
Context {A : Type}.
Implicit Types (l : list A).

Lemma ceil_div_nat (a n : nat) :
  0 < n → ceil_div (Z.of_nat a) (Z.of_nat n) = Z.of_nat ((a + n - 1) `div` n).
Proof.
  intros Hn. unfold ceil_div.
  pose proof (Nat.div_mod_eq (a + n - 1) n) as Hdm.
  pose proof (Nat.mod_upper_bound (a + n - 1) n ltac:(lia)) as Hm.
  set (q := (a + n - 1) `div` n) in *.
  set (m := (a + n - 1) `mod` n) in *.
  assert ((- Z.of_nat a) `div` Z.of_nat n = - Z.of_nat q)%Z as ->; [|lia].
  symmetry. apply (Z.div_unique_pos _ _ _ (Z.of_nat (n - 1 - m))); lia.
Qed.

Lemma ceil_div_nonpos (a : nat) (b : Z) : (b < 0)%Z → (ceil_div (Z.of_nat a) b ≤ 0)%Z.
Proof.
  intros Hb. unfold ceil_div.
  rewrite <- (Z.opp_involutive b), Z.div_opp_opp by lia.
  assert (0 ≤ Z.of_nat a `div` (- b))%Z; [|lia].
  apply Z.div_pos; lia.
Qed.

Lemma py_range_nonpos (n : Z) : (n ≤ 0)%Z → py_range n = [].
Proof. intros Hn. unfold py_range. by replace (Z.to_nat n) with 0 by lia. Qed.

Lemma py_range_lookup (n : Z) (j : nat) :
  py_range n !! j = if decide (j < Z.to_nat n) then Some (Z.of_nat j) else None.
Proof.
  unfold py_range. rewrite list_lookup_fmap. case_decide.
  - by rewrite lookup_seq_lt.
  - by rewrite lookup_seq_ge by lia.
Qed.

Lemma py_slice_chunk l (batch_size : Z) (j : nat) :
  (0 < batch_size)%Z →
  py_slice l (batch_size * Z.of_nat j) (batch_size * (Z.of_nat j + 1))
  = take (Z.to_nat batch_size) (drop (j * Z.to_nat batch_size) l).
Proof.
  intros HB. unfold py_slice, slice_bound.
  rewrite !decide_False by nia.
  set (n := Z.to_nat batch_size).
  assert (batch_size = Z.of_nat n) as Hbs by lia.
  clearbody n. subst batch_size.
  destruct (decide (j * n + n ≤ length l)) as [Hfull|Hpart].
  - rewrite !Z.min_l by nia. f_equal; [nia|]. f_equal. nia.
  - destruct (decide (j * n < length l)) as [Hin|Hout].
    + rewrite (Z.min_l (_ * Z.of_nat j)) by nia. rewrite Z.min_r by nia.
      replace (Z.to_nat (Z.of_nat n * Z.of_nat j)) with (j * n) by nia.
      rewrite !take_ge; [done|rewrite length_drop; lia|rewrite length_drop; lia].
    + rewrite !Z.min_r by nia. rewrite Nat2Z.id.
      rewrite !drop_ge by lia. by rewrite !take_nil.
Qed.

(** The slices of a pool at the batch indices in ascending order are its
    consecutive pieces. *)
Lemma slices_chunks l (batch_size : Z) :
  (0 < batch_size)%Z →
  (λ batch_index,
     py_slice l (batch_size * batch_index) (batch_size * (batch_index + 1)))
  <$> py_range (ceil_div (Z.of_nat (length l)) batch_size)
  = chunks (Z.to_nat batch_size) l.
Proof.
  intros HB. set (n := Z.to_nat batch_size).
  assert (0 < n) as Hn by lia.
  assert (Z.to_nat (ceil_div (Z.of_nat (length l)) batch_size)
          = length (chunks n l)) as Hlen.
  { replace batch_size with (Z.of_nat n) by lia.
    rewrite ceil_div_nat, length_chunks by done. lia. }
  apply list_eq. intros j.
  rewrite list_lookup_fmap, py_range_lookup, Hlen, chunks_lookup by done.
  destruct (decide (j < length (chunks n l))) as [Hj|Hj].
  - apply lookup_lt_is_Some_2 in Hj as [c Hc].
    rewrite chunks_lookup in Hc by done.
    case_decide; [|done]. simpl. f_equal. by apply py_slice_chunk.
  - apply not_lt, lookup_ge_None_2 in Hj.
    rewrite chunks_lookup in Hj by done. by case_decide.
Qed.

Lemma elem_of_py_slice l (lo hi : Z) x : x ∈ py_slice l lo hi → x ∈ l.
Proof.
  unfold py_slice. intros Hx.
  eapply subseteq_drop, subseteq_take, Hx.
Qed.
End slice_facts.

(** ** _group_iter *)
Section group_iter_facts.
Implicit Types (iterable : gen (option row)) (sort_key : option key_fn)
  (group_size : Z) (l : list (option row)) (rows : list row).

Lemma not_None_fill_up (n : nat) (c : list (option row)) :
  not_None (fill_up n None c) = not_None c.
Proof.
  unfold not_None, fill_up. rewrite omap_app.
  assert (omap id (replicate (n - length c) (@None row)) = []) as ->.
  { induction (n - length c) as [|k IH]; [done|]. simpl. exact IH. }
  apply app_nil_r.
Qed.

Lemma not_None_fmap_Some rows : not_None (Some <$> rows) = rows.
Proof.
  unfold not_None. induction rows as [|r rows IH]; [done|]. simpl. by f_equal.
Qed.

Lemma _group_iter_nonpos iterable group_size sort_key :
  (group_size ≤ 0)%Z → _group_iter iterable group_size sort_key = Gen [] None.
Proof.
  intros H. unfold _group_iter. by rewrite zip_longest_shared_nonpos.
Qed.

(** Without a sort key a group is its tuple without the [None]s. *)
Lemma _group_iter_list l group_size :
  (0 < group_size)%Z →
  _group_iter (gen_of_list l) group_size None
  = Gen (not_None <$> chunks (Z.to_nat group_size) l) None.
Proof.
  intros H. unfold _group_iter.
  rewrite zip_longest_shared_list by done.
  rewrite (gen_map_total _ not_None) by done. simpl.
  rewrite <- list_fmap_compose. f_equal.
  apply list_fmap_ext. intros _ c _. simpl. apply not_None_fill_up.
Qed.

Lemma _group_iter_rows rows group_size :
  (0 < group_size)%Z →
  _group_iter (gen_of_list (Some <$> rows)) group_size None
  = Gen (chunks (Z.to_nat group_size) rows) None.
Proof.
  intros H. rewrite _group_iter_list by done. f_equal.
  rewrite chunks_fmap by lia. rewrite <- list_fmap_compose.
  rewrite <- (list_fmap_id (chunks _ rows)) at 2.
  apply list_fmap_ext. intros _ c _. simpl. apply not_None_fmap_Some.
Qed.

(** With a sort key every group that is yielded is sorted. *)
Lemma _group_iter_sorted iterable group_size (key : key_fn) :
  Forall (sorted_by_key_desc key) (yielded (_group_iter iterable group_size (Some key))).
Proof.
  apply gen_map_Forall. intros tuple group _ Hstep.
  by apply list_sort_reverse_Ok in Hstep as [_ ?].
Qed.

Lemma group_step_Permutation sort_key (tuple : list (option row)) group :
  group_step sort_key tuple = Ok group → group ≡ₚ not_None tuple.
Proof.
  unfold group_step. destruct sort_key as [key|].
  - intros Hsort. by apply list_sort_reverse_Ok in Hsort as [? _].
  - by intros [= <-].
Qed.

(** The rows of the groups are rows of the input: no [None], nothing
    made up. *)
Lemma _group_iter_elem iterable group_size sort_key group (r : row) :
  group ∈ yielded (_group_iter iterable group_size sort_key) → r ∈ group →
  Some r ∈ yielded iterable.
Proof.
  intros Hgroup Hr.
  assert (Forall (λ g, ∀ r, r ∈ g → Some r ∈ yielded iterable)
            (yielded (_group_iter iterable group_size sort_key))) as Hall.
  { apply gen_map_Forall. intros tuple g Htuple Hstep r' Hr'.
    apply group_step_Permutation in Hstep. rewrite Hstep in Hr'.
    unfold not_None in Hr'. apply list_elem_of_omap in Hr' as (o & Ho & Hid). simpl in Hid. subst o.
    unfold zip_longest_shared in Htuple. case_decide; [by apply elem_of_nil in Htuple|].
    by destruct (zip_longest_fuel_elem _ _ _ _ _ _ _ Htuple Ho). }
  rewrite Forall_forall in Hall. by eapply Hall.
Qed.
End group_iter_facts.

(** ** The batches of one pool and of all pools *)
Section pool_facts.
Context {rng : Type} {R : RandomSource rng}.
Implicit Types (pool : list row) (g : rng) (batch_size : Z).

Lemma pool_batches_sorted batch_size pool g :
  batch_size ≠ 0%Z →
  pool_batches batch_size true pool g
  = (Ok ((λ batch_index,
            py_slice pool (batch_size * batch_index) (batch_size * (batch_index + 1)))
         <$> (shuffle (py_range (ceil_div (Z.of_nat (length pool)) batch_size)) g).1),
     (shuffle (py_range (ceil_div (Z.of_nat (length pool)) batch_size)) g).2).
Proof.
  intros HB. unfold pool_batches. rewrite decide_False by done.
  by destruct (shuffle _ g).
Qed.

Lemma pool_batches_unsorted batch_size pool g :
  batch_size ≠ 0%Z →
  pool_batches batch_size false pool g
  = (Ok ((λ batch_index,
            py_slice (shuffle pool g).1 (batch_size * batch_index)
              (batch_size * (batch_index + 1)))
         <$> py_range (ceil_div (Z.of_nat (length pool)) batch_size)),
     (shuffle pool g).2).
Proof.
  intros HB. unfold pool_batches. rewrite decide_False by done.
  by destruct (shuffle pool g).
Qed.

(** The batches emitted are [zip_dicts] of the lists of rows. *)
Lemma PoolingBatcher_batchify_rows (self : PoolingBatcher)
    (iterable : gen (option row)) (sort_key : option key_fn) (stage : Stage) g :
  (PoolingBatcher_batchify self iterable sort_key stage g).1
  = Gen (zip_dicts <$> yielded (PoolingBatcher_batch_rows self iterable sort_key stage g).1)
      (raised (PoolingBatcher_batch_rows self iterable sort_key stage g).1).
Proof.
  unfold PoolingBatcher_batchify.
  destruct (PoolingBatcher_batch_rows self iterable sort_key stage g) as [rows g'].
  cbn [fst]. by rewrite (gen_map_total _ zip_dicts).
Qed.

Context {RP : ShufflePermutes rng}.

Lemma shuffle_length {A : Type} (l : list A) g : length (shuffle l g).1 = length l.
Proof. symmetry. apply Permutation_length, shuffle_perm. Qed.

Lemma shuffle_nil {A : Type} g : (shuffle (@nil A) g).1 = [].
Proof. apply Permutation_nil, shuffle_perm. Qed.


(** For a negative batch size a pool gives no batch (and no fault). *)
Lemma pool_batches_negative batch_size sorted pool g :
  (batch_size < 0)%Z →
  pool_batches batch_size sorted pool g
  = (Ok [], (pool_batches batch_size sorted pool g).2).
Proof.
  intros HB. destruct sorted.
  - rewrite pool_batches_sorted by lia. simpl.
    rewrite py_range_nonpos by by apply ceil_div_nonpos.
    by rewrite shuffle_nil.
  - rewrite pool_batches_unsorted by lia. simpl.
    by rewrite py_range_nonpos by by apply ceil_div_nonpos.
Qed.

Lemma pooling_emit_negative batch_size sorted pools r g :
  (batch_size < 0)%Z →
  (pooling_emit batch_size sorted pools r g).1 = Gen [] r.
Proof.
  intros HB. revert g. induction pools as [|pool pools IH]; intros g; [done|].
  simpl. rewrite pool_batches_negative by done.
  specialize (IH (pool_batches batch_size sorted pool g).2).
  destruct (pooling_emit _ _ pools _ _) as [out g']. simpl in *. by rewrite IH.
Qed.

End pool_facts.

(** ** PoolingBatcher with the shuffle replaced by the identity *)
Section identity_shuffle_facts.
Local Existing Instance identity_shuffle.


End identity_shuffle_facts.

Lemma chunks_length_lookup {A : Type} (n : nat) (l : list A) (i : nat) (c : list A) :
  0 < n → chunks n l !! i = Some c →
  length c = if decide (i + 1 < length (chunks n l)) then n
             else length l - n * (length (chunks n l) - 1).
Proof.
  intros Hn Hc.
  pose proof (lookup_lt_Some _ _ _ Hc) as Hi.
  rewrite chunks_lookup in Hc by done.
  case_decide as Hin; [|done]. injection Hc as <-.
  rewrite length_take, length_drop.
  case_decide as Hnext.
  - apply lookup_lt_is_Some_2 in Hnext as [c' Hc'].
    rewrite chunks_lookup in Hc' by done. case_decide; [lia|done].
  - assert (i = length (chunks n l) - 1) as Hlast by lia.
    assert (chunks n l !! S i = None) as Hnone by (apply lookup_ge_None_2; lia).
    rewrite chunks_lookup in Hnone by done. case_decide; [done|].
    rewrite <- Hlast. nia.
Qed.



(** The scenario of the specification: five rows, batch size 2, no sort key,
    no shuffling. *)
Example PoolingBatcher_batchify_scenario :
  (PoolingBatcher_batchify (R := identity_shuffle) scenario_batcher
     (gen_of_list (Some <$> scenario_rows)) None TRAIN tt).1
  = Gen [ {[ "a"%string := [PyInt 1; PyInt 2] ]};
          {[ "a"%string := [PyInt 3; PyInt 4] ]};
          {[ "a"%string := [PyInt 5] ]} ] None.
Proof. vm_compute. reflexivity. Qed.

Lemma identity_shuffle_permutes : @ShufflePermutes unit identity_shuffle.
Proof. intros A l g. reflexivity. Qed.

Lemma reverse_shuffle_permutes : @ShufflePermutes unit reverse_shuffle.
Proof. intros A l g. simpl. symmetry. apply reverse_Permutation. Qed.

(** ** PoolingBatcher with a sort key *)
Section sorted_pools.
Context {rng : Type} {R : RandomSource rng} {RP : ShufflePermutes rng}.

Lemma pooling_emit_sorted (batch_size : Z) (pools : list (list row)) r (g : rng) :
  batch_size ≠ 0%Z →
  ∃ perms : list (list Z),
    Forall2 (λ pool σ, σ ≡ₚ py_range (ceil_div (Z.of_nat (length pool)) batch_size))
      pools perms
    ∧ yielded (pooling_emit batch_size true pools r g).1
      = concat (zip_with
                  (λ pool σ,
                     (λ i, py_slice pool (batch_size * i) (batch_size * (i + 1))) <$> σ)
                  pools perms)
    ∧ raised (pooling_emit batch_size true pools r g).1 = r.
Proof.
  intros HB. revert g. induction pools as [|pool pools IH]; intros g.
  - exists []. by repeat split.
  - cbn [pooling_emit]. rewrite pool_batches_sorted by done.
    set (σ := (shuffle (py_range (ceil_div (Z.of_nat (length pool)) batch_size)) g).1).
    set (g' := (shuffle (py_range (ceil_div (Z.of_nat (length pool)) batch_size)) g).2).
    destruct (IH g') as (perms & Hperms & Hy & Hr).
    destruct (pooling_emit batch_size true pools r g') as [out g''].
    simpl in *. exists (σ :: perms). split; [|split].
    + constructor; [|done]. symmetry. apply shuffle_perm.
    + simpl. by rewrite Hy.
    + done.
Qed.
End sorted_pools.

Lemma zip_longest_fuel_length {A : Type} (fuel n : nat) (fill : A) l r t :
  t ∈ yielded (zip_longest_fuel fuel n fill l r) → length t = n.
Proof.
  revert l. induction fuel as [|fuel IH]; intros l Ht; [by apply elem_of_nil in Ht|].
  cbn [zip_longest_fuel] in Ht. case_decide as Hlen.
  - destruct r; [by apply elem_of_nil in Ht|].
    destruct l as [|y l]; [by apply elem_of_nil in Ht|].
    apply list_elem_of_singleton in Ht as ->.
    rewrite length_app, length_replicate. simpl in *. lia.
  - simpl in Ht. apply elem_of_cons in Ht as [->|Ht]; [|by eapply IH].
    rewrite length_take. lia.
Qed.

Lemma length_not_None {A : Type} (l : list (option A)) :
  length (not_None l) ≤ length l.
Proof.
  unfold not_None. induction l as [|[x|] l IH]; csimpl in *; lia.
Qed.

Lemma _group_iter_length (iterable : gen (option row)) (group_size : Z)
    (sort_key : option key_fn) (group : list row) :
  group ∈ yielded (_group_iter iterable group_size sort_key) →
  (Z.of_nat (length group) ≤ group_size)%Z.
Proof.
  intros Hgroup.
  assert (Forall (λ g : list row, (Z.of_nat (length g) ≤ group_size)%Z)
            (yielded (_group_iter iterable group_size sort_key))) as Hall.
  { apply gen_map_Forall. intros tuple g Htuple Hstep.
    apply group_step_Permutation, Permutation_length in Hstep. rewrite Hstep.
    unfold zip_longest_shared in Htuple. case_decide; [by apply elem_of_nil in Htuple|].
    apply zip_longest_fuel_length in Htuple.
    pose proof (length_not_None tuple) as Hle. lia. }
  rewrite Forall_forall in Hall. by apply Hall.
Qed.

(** C3: with a sort key and at least one batch per pool, every pool of
    [PoolingBatcher.batchify] is in non-increasing order of the key and has at
    most [batch_size * pool_num_batches] rows; what is emitted for a pool are
    its slices [pool[B*i : B*(i+1)]], for [i] running over a rearrangement of
    [range(ceil(len(pool)/B))]; the slices taken in ascending order of [i] put
    the pool together again. *)
Theorem PoolingBatcher_batchify_sorted_pools
    {rng : Type} {R : RandomSource rng} {RP : ShufflePermutes rng}
    (self : PoolingBatcher) (stage : Stage) (iterable : gen (option row))
    (key : key_fn) (g : rng) :
  let B := _batch_sizes (base self) stage in
  let pools := yielded (_group_iter iterable (B * pool_num_batches self) (Some key)) in
  let batches_of (pool : list row) (indices : list Z) :=
    (λ i, py_slice pool (B * i) (B * (i + 1))) <$> indices in
  (1 ≤ pool_num_batches self)%Z →
  ∃ perms : list (list Z),
    Forall2 (λ pool σ, σ ≡ₚ py_range (ceil_div (Z.of_nat (length pool)) B)) pools perms
    ∧ yielded (PoolingBatcher_batch_rows self iterable (Some key) stage g).1
      = concat (zip_with batches_of pools perms)
    ∧ yielded (PoolingBatcher_batchify self iterable (Some key) stage g).1
      = zip_dicts <$> concat (zip_with batches_of pools perms)
    ∧ Forall (λ pool,
                sorted_by_key_desc key pool
                ∧ (Z.of_nat (length pool) ≤ B * pool_num_batches self)%Z
                ∧ concat (batches_of pool (py_range (ceil_div (Z.of_nat (length pool)) B)))
                  = pool) pools.
Proof.
  intros B pools batches_of HP.
  destruct (decide (B ≤ 0)%Z) as [Hle|Hpos].
  - assert (pools = []) as Hpools.
    { subst pools. rewrite _group_iter_nonpos; [done|nia]. }
    assert (yielded (PoolingBatcher_batch_rows self iterable (Some key) stage g).1 = [])
      as Hrows.
    { unfold PoolingBatcher_batch_rows. fold B. fold pools. by rewrite Hpools. }
    exists []. rewrite Hpools. split; [constructor|]. split; [done|].
    split; [|constructor].
    by rewrite PoolingBatcher_batchify_rows, Hrows.
  - destruct (pooling_emit_sorted B pools
                (raised (_group_iter iterable (B * pool_num_batches self) (Some key))) g)
      as (perms & Hperms & Hy & _); [lia|].
    assert (yielded (PoolingBatcher_batch_rows self iterable (Some key) stage g).1
            = concat (zip_with batches_of pools perms)) as Hrows.
    { unfold PoolingBatcher_batch_rows. fold B. fold pools.
      replace (bool_decide (is_Some (Some key))) with true
        by (symmetry; apply bool_decide_eq_true; eauto).
      exact Hy. }
    exists perms. split; [done|]. split; [done|]. split.
    + by rewrite PoolingBatcher_batchify_rows, Hrows.
    + apply Forall_forall. intros pool Hpool. split; [|split].
      * pose proof (_group_iter_sorted iterable (B * pool_num_batches self) key) as Hs.
        rewrite Forall_forall in Hs. by apply Hs.
      * by eapply _group_iter_length.
      * subst batches_of. simpl. rewrite slices_chunks by lia.
        apply concat_chunks. lia.
Qed.

Lemma PoolingBatcher_batchify_sorted_pools_witness :
  let pools := [[scenario_row 4; scenario_row 3; scenario_row 2; scenario_row 1];
                [scenario_row 5]] in
  ∃ perms : list (list Z),
    Forall2 (λ pool σ, σ ≡ₚ py_range (ceil_div (Z.of_nat (length pool)) 2)) pools perms
    ∧ yielded (PoolingBatcher_batch_rows (R := reverse_shuffle)
                 (mkPoolingBatcher (mkBatcher 2 2 2) 2)
                 (gen_of_list (Some <$> scenario_rows)) (Some scenario_key) TRAIN tt).1
      = concat (zip_with
                  (λ pool σ, (λ i, py_slice pool (2 * i) (2 * (i + 1))) <$> σ)
                  pools perms).
Proof.
  intros pools.
  destruct (PoolingBatcher_batchify_sorted_pools (R := reverse_shuffle)
              (RP := reverse_shuffle_permutes)
              (mkPoolingBatcher (mkBatcher 2 2 2) 2) TRAIN
              (gen_of_list (Some <$> scenario_rows)) scenario_key tt)
    as (perms & Hperms & Hy & _).
  - simpl. lia.
  - exists perms. split; [exact Hperms|exact Hy].
Defined.

(** Five rows with keys 1..5, batch size 2, pools of two batches, the
    reversing shuffle: the sorted pools are [4,3,2,1] and [5]; the batches of
    the first pool come out in reversed order, each in its sorted order. *)
Example PoolingBatcher_batchify_sorted_example :
  (PoolingBatcher_batch_rows (R := reverse_shuffle)
     (mkPoolingBatcher (mkBatcher 2 2 2) 2)
     (gen_of_list (Some <$> (reverse scenario_rows))) (Some scenario_key) TRAIN tt).1
  = Gen [ [scenario_row 3; scenario_row 2]; [scenario_row 5; scenario_row 4];
          [scenario_row 1] ] None.
Proof. vm_compute. reflexivity. Qed.

(** ** zip_dicts: the claims *)

(** C5 (as amended): [zip_dicts] returns a mapping whose keys are the union
    of the keys of the rows; a key of the union maps to one entry per row, in
    the order of the rows, [None] standing for a row without the key, and no
    other key is present; one or more rows that all map one field to one value
    give that field mapped to as many copies of the value; no rows give the
    empty mapping, which has no field at all. *)
Theorem zip_dicts_columns (dicts : list row) (key : string) (N : nat) (field : string)
    (v : pyval) :
  dom (zip_dicts dicts) = all_keys dicts
  ∧ (key ∈ all_keys dicts ↔ ∃ d, d ∈ dicts ∧ is_Some (d !! key))
  ∧ zip_dicts dicts !! key
    = (if decide (key ∈ all_keys dicts) then Some ((λ d, dict_get d key) <$> dicts)
       else None)
  ∧ zip_dicts (replicate (S N) {[field := v]}) = {[field := replicate (S N) v]}
  ∧ zip_dicts (replicate 0 {[field := v]}) = ∅.
Proof.
  split; [apply zip_dicts_dom|].
  split; [apply elem_of_all_keys|].
  split; [apply zip_dicts_lookup|].
  split; [apply zip_dicts_replicate_S|done].
Qed.

(** C5 as stated fails for no rows: the result has no field, so the one field
    is not mapped to the empty list. *)
Lemma zip_dicts_no_rows_no_field :
  zip_dicts (replicate 0 {[ "a"%string := PyInt 1 ]})
  ≠ {[ "a"%string := replicate 0 (PyInt 1) ]}.
Proof.
  intros Heq.
  assert (zip_dicts (replicate 0 {[ "a"%string := PyInt 1 ]}) !! "a"%string
          = Some []) as Hlookup.
  { rewrite Heq. apply lookup_singleton_eq. }
  vm_compute in Hlookup. discriminate.
Qed.

(** ** Non-positive sizes *)

(** C7 (as amended): construction accepts every batch size; with a batch
    size that is zero or negative [Batcher.batchify] yields nothing and raises
    nothing, [PoolingBatcher.batchify] yields nothing and raises only what
    the grouping of the pools raises (an exception of the iterable or of the
    sort key), and with a batch size of zero it raises nothing: no division
    is reached. *)
Theorem nonpositive_batch_size_yields_nothing
    {rng : Type} {R : RandomSource rng} {RP : ShufflePermutes rng}
    (train_batch_size eval_batch_size test_batch_size : Z) (pnb : option Z)
    (stage : Stage) (iterable : gen (option row)) (sort_key : option key_fn) (g : rng) :
  let b := mkBatcher train_batch_size eval_batch_size test_batch_size in
  let pb := mkPoolingBatcher b (or_1 pnb) in
  let B := _batch_sizes b stage in
  (B ≤ 0)%Z →
  Batcher_init train_batch_size eval_batch_size test_batch_size = Ok b
  ∧ PoolingBatcher_init train_batch_size eval_batch_size test_batch_size pnb
    = Ok pb
  ∧ Batcher_batchify b iterable sort_key stage = Gen [] None
  ∧ yielded (PoolingBatcher_batchify pb iterable sort_key stage g).1 = []
  ∧ raised (PoolingBatcher_batchify pb iterable sort_key stage g).1
    = raised (_group_iter iterable (B * or_1 pnb) sort_key)
  ∧ (B = 0%Z → (PoolingBatcher_batchify pb iterable sort_key stage g).1 = Gen [] None).
Proof.
  intros b pb B HB.
  split; [done|]. split; [done|]. split.
  { unfold Batcher_batchify, Batcher_batch_rows. fold B.
    by rewrite _group_iter_nonpos. }
  assert ((PoolingBatcher_batch_rows pb iterable sort_key stage g).1
          = Gen [] (raised (_group_iter iterable (B * or_1 pnb) sort_key)))
    as Hrows.
  { unfold PoolingBatcher_batch_rows. subst pb. cbn [base pool_num_batches]. fold B.
    destruct (decide (B = 0)%Z) as [HB0|HB0].
    - rewrite HB0, Z.mul_0_l, _group_iter_nonpos by done. done.
    - apply pooling_emit_negative. lia. }
  unfold PoolingBatcher_batchify.
  destruct (PoolingBatcher_batch_rows pb iterable sort_key stage g) as [rows g'].
  simpl in Hrows. subst rows. cbn [fst gen_map gen_map_list yielded raised].
  split; [done|]. split; [done|].
  intros HB0. rewrite HB0, Z.mul_0_l, _group_iter_nonpos by done. done.
Qed.

(** C7 as stated fails: a zero and a negative batch size are accepted by both
    constructors, and the batchers then yield nothing for five rows. *)
Lemma nonpositive_batch_size_accepted :
  Batcher_init 0 (-1) 16 = Ok (mkBatcher 0 (-1) 16)
  ∧ PoolingBatcher_init 0 (-1) 16 (Some Config_pool_num_batches)
    = Ok (mkPoolingBatcher (mkBatcher 0 (-1) 16) Config_pool_num_batches)
  ∧ Batcher_batchify (mkBatcher 0 (-1) 16) (gen_of_list (Some <$> scenario_rows)) None TRAIN
    = Gen [] None
  ∧ (PoolingBatcher_batchify (R := identity_shuffle)
       (mkPoolingBatcher (mkBatcher 0 (-1) 16) Config_pool_num_batches)
       (gen_of_list (Some <$> scenario_rows)) None EVAL tt).1
    = Gen [] None.
Proof. vm_compute. repeat split. Qed.

Lemma nonpositive_batch_size_yields_nothing_witness :
  (_batch_sizes (mkBatcher 0 (-1) 16) EVAL ≤ 0)%Z
  ∧ Batcher_batchify (mkBatcher 0 (-1) 16) (gen_of_list (Some <$> scenario_rows))
      (Some scenario_key) EVAL
    = Gen [] None.
Proof.
  assert (_batch_sizes (mkBatcher 0 (-1) 16) EVAL ≤ 0)%Z as HB by (simpl; lia).
  split; [exact HB|].
  destruct (nonpositive_batch_size_yields_nothing (R := reverse_shuffle)
              (RP := reverse_shuffle_permutes) 0 (-1) 16 (Some (-2)%Z) EVAL
              (gen_of_list (Some <$> scenario_rows)) (Some scenario_key) tt HB)
    as (_ & _ & Hplain & _).
  exact Hplain.
Defined.

(** ** pool_num_batches *)
Section pooling_elements.
Context {rng : Type} {R : RandomSource rng} {RP : ShufflePermutes rng}.

Lemma pooling_emit_elem (batch_size : Z) sorted (pools : list (list row)) r (g : rng)
    (b : list row) (x : row) :
  b ∈ yielded (pooling_emit batch_size sorted pools r g).1 → x ∈ b →
  ∃ pool, pool ∈ pools ∧ x ∈ pool.
Proof.
  revert g. induction pools as [|pool pools IH]; intros g Hb Hx.
  { by apply elem_of_nil in Hb. }
  cbn [pooling_emit] in Hb.
  destruct (decide (batch_size = 0)%Z) as [HB|HB].
  { unfold pool_batches in Hb. rewrite decide_True in Hb by done.
    by apply elem_of_nil in Hb. }
  assert (∃ bs g', pool_batches batch_size sorted pool g = (Ok bs, g')
                   ∧ ∀ b, b ∈ bs → ∀ x, x ∈ b → x ∈ pool) as (bs & g' & Hpb & Hbs).
  { destruct sorted.
    - rewrite pool_batches_sorted by done. do 2 eexists. split; [done|].
      intros b' Hb' x' Hx'. apply list_elem_of_fmap in Hb' as (i & -> & _).
      by eapply elem_of_py_slice.
    - rewrite pool_batches_unsorted by done. do 2 eexists. split; [done|].
      intros b' Hb' x' Hx'. apply list_elem_of_fmap in Hb' as (i & -> & _).
      apply elem_of_py_slice in Hx'.
      by rewrite <- (shuffle_perm _ pool g) in Hx'. }
  rewrite Hpb in Hb.
  destruct (pooling_emit batch_size sorted pools r g') as [out g''] eqn:Hout.
  simpl in Hb. apply elem_of_app in Hb as [Hb|Hb].
  - exists pool. split; [left|by eapply Hbs].
  - specialize (IH g'). rewrite Hout in IH.
    destruct (IH Hb Hx) as (pool' & Hpool' & Hx').
    exists pool'. split; [by right|done].
Qed.
End pooling_elements.




(** ** None in the input *)

Lemma concat_not_None {A : Type} (ls : list (list (option A))) :
  concat (not_None <$> ls) = not_None (concat ls).
Proof.
  unfold not_None. induction ls as [|l ls IH]; [done|].
  rewrite fmap_cons, !concat_cons, omap_app. by rewrite IH.
Qed.

(** C10: [_group_iter] cuts the input into tuples of [group_size] elements
    and removes the [None]s of each tuple; so the rows of the groups are the
    non-[None] elements of the input, in order (without a sort key), every row
    of a group of [_group_iter] and of a batch of either batcher is a
    non-[None] element of the input, and a group that is not the last can have
    fewer than [group_size] rows: a tuple of [None]s gives an empty group,
    which [Batcher.batchify] emits as an empty batch. *)
Theorem _group_iter_drops_None
    {rng : Type} {R : RandomSource rng} {RP : ShufflePermutes rng}
    (l : list (option row)) (group_size : Z) (sort_key : option key_fn)
    (self : Batcher) (pself : PoolingBatcher) (stage : Stage) (g : rng) :
  (0 < group_size)%Z →
  _group_iter (gen_of_list l) group_size None
  = Gen (not_None <$> chunks (Z.to_nat group_size) l) None
  ∧ concat (yielded (_group_iter (gen_of_list l) group_size None)) = not_None l
  ∧ (∀ group r,
       group ∈ yielded (_group_iter (gen_of_list l) group_size sort_key) → r ∈ group →
       Some r ∈ l)
  ∧ (∀ b r,
       b ∈ yielded (Batcher_batch_rows self (gen_of_list l) sort_key stage) → r ∈ b →
       Some r ∈ l)
  ∧ (∀ b r,
       b ∈ yielded (PoolingBatcher_batch_rows pself (gen_of_list l) sort_key stage g).1 →
       r ∈ b → Some r ∈ l)
  ∧ yielded (_group_iter (gen_of_list input_with_None) 2 None)
    = [ []; [scenario_row 1; scenario_row 2] ]
  ∧ Batcher_batchify (mkBatcher 2 2 2) (gen_of_list input_with_None) None TRAIN
    = Gen [ ∅; {[ "a"%string := [PyInt 1; PyInt 2] ]} ] None.
Proof.
  intros Hn. split; [by apply _group_iter_list|]. split.
  { rewrite _group_iter_list by done. cbn [yielded].
    rewrite concat_not_None, concat_chunks by lia. done. }
  split.
  { intros group r Hgroup Hr. by eapply (_group_iter_elem (gen_of_list l)). }
  split.
  { intros b r Hb Hr. by eapply (_group_iter_elem (gen_of_list l)). }
  split.
  { intros b r Hb Hr. unfold PoolingBatcher_batch_rows in Hb.
    destruct (pooling_emit_elem _ _ _ _ _ _ _ Hb Hr) as (pool & Hpool & Hr').
    by eapply (_group_iter_elem (gen_of_list l)). }
  split; vm_compute; reflexivity.
Qed.

Lemma _group_iter_drops_None_witness :
  concat (yielded (_group_iter (gen_of_list input_with_None) 3 None))
  = [scenario_row 1; scenario_row 2].
Proof.
  destruct (_group_iter_drops_None (R := reverse_shuffle) (RP := reverse_shuffle_permutes)
              input_with_None 3 None (mkBatcher 2 2 2)
              (mkPoolingBatcher (mkBatcher 2 2 2) 2) TRAIN tt)
    as (_ & Hconcat & _).
  - lia.
  - exact Hconcat.
Defined.

(** ** Data: numberizing and the cache *)
Section numberize_facts.
Context {T : Type}.
Implicit Types (self : Data T) (tzs : list (string * Tensorizer T)) (r acc : row).

Lemma numberize_fields_raises tzs r acc name t e :
  (name, t) ∈ tzs → numberize t r = Raise e →
  ∃ e', numberize_fields tzs r acc = Raise e'.
Proof.
  revert acc. induction tzs as [|[name' t'] tzs IH]; intros acc Hin Hraise.
  { by apply elem_of_nil in Hin. }
  cbn [numberize_fields].
  destruct (numberize t' r) as [v|e'] eqn:Ht'; simpl; [|eauto].
  apply elem_of_cons in Hin as [[= -> ->]|Hin]; [congruence|].
  by apply IH.
Qed.

Lemma numberize_fields_Raise_inv tzs r acc e :
  numberize_fields tzs r acc = Raise e →
  ∃ name t, (name, t) ∈ tzs ∧ numberize t r = Raise e.
Proof.
  revert acc. induction tzs as [|[name' t'] tzs IH]; intros acc Hraise; [done|].
  cbn [numberize_fields] in Hraise.
  destruct (numberize t' r) as [v|e'] eqn:Ht'; simpl in Hraise.
  - destruct (IH _ Hraise) as (name & t & Hin & Ht).
    exists name, t. split; [by right|done].
  - injection Hraise as ->. exists name', t'. split; [left|done].
Qed.

Lemma gen_map_list_raised_inv {A B : Type} (f : A → result B) l e :
  raised (gen_map_list f l None) = Some e →
  ∃ (i : nat) x, l !! i = Some x ∧ f x = Raise e.
Proof.
  induction l as [|x l IH]; simpl; [done|].
  destruct (f x) as [y|e'] eqn:Hfx; simpl.
  - intros Hr. destruct (IH Hr) as (i & x' & Hi & Hx'). by exists (S i), x'.
  - intros [= ->]. by exists 0, x.
Qed.

(** A numberize pass over rows on which a converter raises does raise, and
    its exception is the exception of a converter on a row. *)
Lemma numberize_rows_raises self rows e0 :
  converter_raises self rows e0 →
  ∃ e, list_of_gen (numberize_rows self (gen_of_list rows)) = Raise e
       ∧ converter_raises self rows e.
Proof.
  intros (i & r & name & t & Hi & Hin & Hraise).
  destruct (numberize_fields_raises (tensorizers self) r ∅ name t e0 Hin Hraise)
    as [e1 He1].
  destruct (gen_map_list_raises (λ r, numberize_fields (tensorizers self) r ∅)
              rows None i r e1 Hi He1) as [e He].
  exists e. unfold list_of_gen, numberize_rows, gen_map. cbn [gen_of_list yielded raised].
  rewrite He. split; [done|].
  apply gen_map_list_raised_inv in He as (j & r' & Hj & Hr').
  apply numberize_fields_Raise_inv in Hr' as (name' & t' & Hin' & Ht').
  by exists j, r', name', t'.
Qed.
End numberize_facts.

Section cache_facts.
Context {T rng : Type} {R : RandomSource rng}.
Implicit Types (self : Data T) (s : DataState T rng) (ds : DataSource).

(** A cached non-empty list is used whatever the source would give. *)
Lemma get_numberized_rows_cached self stage (rows : nat → list row) s r l :
  in_memory self = true → numberized_cache s !! stage = Some (r :: l) →
  get_numberized_rows self stage rows s = (Ok (gen_of_list (r :: l)), s).
Proof. intros Hmem Hcache. unfold get_numberized_rows. by rewrite Hmem, Hcache. Qed.

(** Without a usable cache entry the rows are numberized at once, and
    cached when no converter raises. *)
Lemma get_numberized_rows_miss self stage (rows : nat → list row) s :
  in_memory self = true →
  numberized_cache s !! stage = None ∨ numberized_cache s !! stage = Some [] →
  get_numberized_rows self stage rows s
  = match list_of_gen (numberize_rows self (gen_of_list (rows (reads s)))) with
    | Ok numberized_rows =>
        (Ok (gen_of_list numberized_rows),
         set_numberized_cache (<[stage := numberized_rows]> (numberized_cache s))
           (count_read s))
    | Raise e => (Raise e, count_read s)
    end.
Proof.
  intros Hmem Hcache. unfold get_numberized_rows. rewrite Hmem.
  by destruct Hcache as [-> | ->].
Qed.

Lemma _get_batches_numberize_failure self stage ds s e :
  in_memory self = true →
  batch s !! stage = None →
  numberized_cache s !! stage = None ∨ numberized_cache s !! stage = Some [] →
  list_of_gen (numberize_rows self (gen_of_list (stage_rows ds stage (reads s)))) = Raise e →
  _get_batches self stage ds s = (Raise e, count_read s).
Proof.
  intros Hmem Hcursor Hcache Hraise. unfold _get_batches. rewrite Hcursor.
  rewrite get_numberized_rows_miss by done. by rewrite Hraise.
Qed.
End cache_facts.

(** C9: with the cache enabled, when a converter raises on a row of the
    phase while its rows are numberized (there is no live cursor and no
    usable cache entry for the phase), [_get_batches] ends with an exception
    of a converter, installs no cursor and leaves the cache as it was: no list
    of converted rows is stored for the phase; the traversal of [batches] that
    asked for the stream ends with that exception before any batch. *)
Theorem numberize_failure_caches_nothing
    {T rng : Type} {R : RandomSource rng}
    (self : Data T) (stage : Stage) (ds : option DataSource) (s : DataState T rng)
    (e0 : exn) (fuel : nat) :
  let source := default (data_source self) ds in
  in_memory self = true →
  batch s !! stage = None →
  numberized_cache s !! stage = None ∨ numberized_cache s !! stage = Some [] →
  converter_raises self (stage_rows source stage (reads s)) e0 →
  ∃ e s',
    converter_raises self (stage_rows source stage (reads s)) e
    ∧ _get_batches self stage source s = (Raise e, s')
    ∧ numberized_cache s' = numberized_cache s
    ∧ batch s' = batch s
    ∧ ∃ s'', batches (S fuel) self stage ds s = Some (Gen [] (Some e), s'')
             ∧ numberized_cache s'' = numberized_cache s
             ∧ batch s'' = batch s.
Proof.
  intros source Hmem Hcursor Hcache Hconv.
  destruct (numberize_rows_raises self _ e0 Hconv) as (e & Hraise & He).
  exists e, (count_read s). split; [done|]. split.
  { by apply _get_batches_numberize_failure. }
  split; [done|]. split; [done|].
  exists (count_read (set_num_batches 0 s)).
  unfold batches. fold source. cbn [batches_loop].
  rewrite (_get_batches_numberize_failure self stage source (set_num_batches 0 s) e)
    by done.
  done.
Qed.

Lemma numberize_failure_caches_nothing_witness :
  ∃ e s',
    _get_batches (R := identity_shuffle) (example_data broken_source None None true)
      TRAIN broken_source (DataState_init tt) = (Raise e, s')
    ∧ numberized_cache s' = ∅.
Proof.
  destruct (numberize_failure_caches_nothing (R := identity_shuffle)
              (example_data broken_source None None true) TRAIN None
              (DataState_init tt) (ConverterError "a") 0)
    as (e & s' & _ & Hget & Hcache & _).
  - reflexivity.
  - reflexivity.
  - left. reflexivity.
  - exists 1, {[ "b"%string := PyInt 2 ]}, "a"%string, field_a_tensorizer.
    split; [reflexivity|]. split; [left|reflexivity].
  - exists e, s'. split; [exact Hget|exact Hcache].
Defined.

(** The derivation over [broken_source], evaluated. *)
Example numberize_failure_example :
  (_get_batches (R := identity_shuffle) (example_data broken_source None None true)
     TRAIN broken_source (DataState_init tt)).1
  = Raise (ConverterError "a").
Proof. vm_compute. reflexivity. Qed.

(** ** Data: a sort key that names no tensorizer *)
Section missing_sort_key.
Context {T rng : Type} {R : RandomSource rng}.
Implicit Types (self : Data T) (s : DataState T rng).






End missing_sort_key.




(** ** Data: the cache of numberized rows *)

(** C4, where the code departs from it: the [eval] stream is empty at the
    first reading, the empty list is stored in the cache, and the second
    traversal of [batches(EVAL)] does not use it: the source is read again and
    a batch of the row it now has is yielded. *)
Theorem empty_cached_rows_are_read_again :
  let data := example_data growing_source None None true in
  ∃ s1 s2,
    batches (R := identity_shuffle) 1 data EVAL None (DataState_init tt)
    = Some (Gen [] None, s1)
    ∧ numberized_cache s1 !! EVAL = Some []
    ∧ batches (R := identity_shuffle) 1 data EVAL None s1
      = Some (Gen [ {[ "a"%string := [PyInt 7] ]} ] None, s2)
    ∧ numberized_cache s2 !! EVAL = Some [scenario_row 7]
    ∧ reads s2 = 2.
Proof.
  intros data. eexists _, _.
  split; [vm_compute; reflexivity|].
  split; [vm_compute; reflexivity|].
  split; [vm_compute; reflexivity|].
  split; vm_compute; reflexivity.
Qed.

(** What does hold for C4: a non-empty list in the cache is what every later
    derivation uses, whatever the source would give at that time. *)
Lemma cached_rows_mask_the_source {T rng : Type} (self : Data T) (stage : Stage)
    (rows rows' : nat → list row) (s : DataState T rng) (r : row) (l : list row) :
  in_memory self = true → numberized_cache s !! stage = Some (r :: l) →
  get_numberized_rows self stage rows s = (Ok (gen_of_list (r :: l)), s)
  ∧ get_numberized_rows self stage rows' s = get_numberized_rows self stage rows s.
Proof.
  intros Hmem Hcache. by rewrite !(get_numberized_rows_cached _ _ _ _ r l).
Qed.

(** ** Data: epochs of a fixed number of batches *)
Section epochs.
Context {T rng : Type} {R : RandomSource rng}.
Implicit Types (self : Data T) (s : DataState T rng) (items : list (gmap string T)).

Lemma for_batches_TRAIN (E : Z) items (k : Z) :
  (k ≤ E)%Z →
  for_batches TRAIN (Some E) items k
  = if decide (E - k < Z.of_nat (length items))%Z
    then mkForOutcome (take (Z.to_nat (E - k)) items)
           (drop (S (Z.to_nat (E - k))) items) 0 true
    else mkForOutcome items [] (k + Z.of_nat (length items)) false.
Proof.
  revert k. induction items as [|b items IH]; intros k Hk.
  - simpl. rewrite decide_False by lia. by rewrite Z.add_0_r.
  - cbn [for_batches]. rewrite bool_decide_eq_true_2 by done. cbn [andb].
    destruct (decide (k = E)) as [->|Hne].
    + rewrite bool_decide_eq_true_2 by done.
      rewrite decide_True by (simpl; lia).
      by replace (Z.to_nat (E - E)) with 0 by lia.
    + rewrite bool_decide_eq_false_2 by congruence.
      rewrite IH by lia. cbn [length].
      destruct (decide (E - (k + 1) < Z.of_nat (length items))%Z) as [Hlt|Hge].
      * rewrite decide_True by lia. cbn [for_yielded for_rest for_num_batches for_returned].
        replace (Z.to_nat (E - k)) with (S (Z.to_nat (E - (k + 1)))) by lia.
        done.
      * rewrite decide_False by lia. cbn [for_yielded for_rest for_num_batches for_returned].
        f_equal. lia.
Qed.

Lemma _get_batches_num_batches self stage source s :
  num_batches (_get_batches self stage source s).2 = num_batches s.
Proof.
  unfold _get_batches. destruct (batch s !! stage); [done|].
  assert (num_batches (get_numberized_rows self stage (stage_rows source stage) s).2
          = num_batches s) as Hnum.
  { unfold get_numberized_rows. destruct (in_memory self); [|done].
    destruct (numberized_cache s !! stage) as [[|r l]|];
      try done; by destruct (list_of_gen _). }
  destruct (get_numberized_rows self stage (stage_rows source stage) s) as [[nr|e] s1];
    [|done].
  by destruct (batcher_batchify _ _ _ _).
Qed.

Lemma _get_batches_live self stage source s cursor :
  batch s !! stage = Some cursor → _get_batches self stage source s = (Ok cursor, s).
Proof. intros Hc. unfold _get_batches. by rewrite Hc. Qed.

Variables (self : Data T) (source : DataSource) (E : Z) (M : nat)
  (Inv : DataState T rng → Prop).
Hypothesis (HE : epoch_size self = Some E) (HM : 0 < M) (HME : (Z.of_nat M < E)%Z).
Hypothesis Hsupplies : supplies self source M Inv.

(** One turn of the loop from a state with the cursor [cursor] in hand. *)
Lemma batches_loop_turn fuel s s1 items acc :
  _get_batches self TRAIN source s = (Ok (Gen items None), s1) →
  (num_batches s1 ≤ E)%Z →
  batches_loop (S fuel) self TRAIN source s acc
  = if decide (E - num_batches s1 < Z.of_nat (length items))%Z
    then Some (Gen (acc ++ take (Z.to_nat (E - num_batches s1)) items) None,
               set_batch (<[TRAIN := Gen (drop (S (Z.to_nat (E - num_batches s1))) items)
                                       None]>)
                 (set_num_batches 0 s1))
    else batches_loop fuel self TRAIN source
           (set_batch (delete TRAIN)
              (set_num_batches (num_batches s1 + Z.of_nat (length items)) s1))
           (acc ++ items).
Proof.
  intros Hget Hk. cbn [batches_loop]. rewrite Hget, HE. cbn [yielded raised].
  rewrite for_batches_TRAIN by done.
  case_decide; cbn [for_returned for_yielded for_rest for_num_batches]; [done|].
  rewrite bool_decide_eq_true_2 by done. cbn [negb orb no_epoch_size].
  rewrite bool_decide_eq_false_2 by lia. done.
Qed.

(** From a state with [k] batches counted, the loop yields [E - k] more,
    ends normally and leaves a live cursor. *)
Lemma batches_loop_epoch fuel s acc :
  Inv s →
  (0 ≤ num_batches s ≤ E)%Z →
  (batch s !! TRAIN = None ∨ ∃ items, batch s !! TRAIN = Some (Gen items None)) →
  (2 * (E - num_batches s) + 2 ≤ Z.of_nat fuel
   ∨ (batch s !! TRAIN = None ∧ 2 * (E - num_batches s) + 1 ≤ Z.of_nat fuel))%Z →
  ∃ ys s' rest,
    batches_loop fuel self TRAIN source s acc = Some (Gen (acc ++ ys) None, s')
    ∧ Z.of_nat (length ys) = (E - num_batches s)%Z
    ∧ batch s' !! TRAIN = Some (Gen rest None)
    ∧ Inv s'.
Proof.
  destruct Hsupplies as [Hinv Hderive].
  revert s acc. induction fuel as [|fuel IH]; intros s acc HInv Hk Hcursor Hfuel; [lia|].
  assert (∃ items s1,
            _get_batches self TRAIN source s = (Ok (Gen items None), s1)
            ∧ Inv s1 ∧ num_batches s1 = num_batches s
            ∧ (batch s !! TRAIN = None → 0 < length items))
    as (items & s1 & Hget & HInv1 & Hnum & Hlen).
  { destruct Hcursor as [Hnone|[items Hlive]].
    - destruct (Hderive s HInv Hnone) as (items & s1 & Hget & Hlen & HInv1).
      exists items, s1. repeat split; try done.
      + pose proof (_get_batches_num_batches self TRAIN source s) as Hn.
        by rewrite Hget in Hn.
      + intros _. lia.
    - exists items, s. rewrite (_get_batches_live _ _ _ _ _ Hlive).
      repeat split; try done. intros Hnone. congruence. }
  rewrite (batches_loop_turn fuel s s1 items acc Hget) by lia.
  rewrite Hnum. case_decide as Hbound.
  - eexists _, _, _. split; [done|]. split; [|split].
    + rewrite length_take. lia.
    + cbn [batch set_batch]. apply lookup_insert_eq.
    + by apply Hinv.
  - edestruct (IH (set_batch (delete TRAIN)
                     (set_num_batches (num_batches s + Z.of_nat (length items)) s1))
                  (acc ++ items)) as (ys & s' & rest & Hloop & Hys & Hlive & HInv').
    + by apply Hinv.
    + cbn [num_batches set_batch set_num_batches]. lia.
    + left. cbn [batch set_batch]. apply lookup_delete_eq.
    + right. split; [cbn [batch set_batch]; apply lookup_delete_eq|].
      cbn [num_batches set_batch set_num_batches].
      destruct Hfuel as [Hfuel|[Hnone Hfuel]]; [lia|].
      specialize (Hlen Hnone). lia.
    + exists (items ++ ys), s', rest. rewrite Hloop, app_assoc.
      split; [done|]. split; [|done].
      cbn [num_batches set_batch set_num_batches] in Hys.
      rewrite length_app. lia.
Qed.
End epochs.

(** C2: with an epoch size [E] and [M] batches in every derivation of the
    [TRAIN] stream, [0 < M < E], a traversal of [batches(TRAIN)] that starts
    without a cursor yields [E] batches and ends normally: the [M] batches of
    the first derivation, then those of the derivations that follow in the
    same traversal; when it ends the cursor is alive; a second traversal
    yields [E] batches again and leaves the cursor alive again. *)
Theorem batches_TRAIN_epoch_size
    {T rng : Type} {R : RandomSource rng}
    (self : Data T) (ds : option DataSource) (E : Z) (M : nat)
    (Inv : DataState T rng → Prop) (s : DataState T rng) :
  let source := default (data_source self) ds in
  epoch_size self = Some E → 0 < M → (Z.of_nat M < E)%Z →
  supplies self source M Inv → Inv s → batch s !! TRAIN = None →
  ∃ fuel0, ∀ fuel, fuel0 ≤ fuel →
    ∃ first_pass more s1 rest1 out2 s2 rest2,
      (_get_batches self TRAIN source (set_num_batches 0 s)).1 = Ok (Gen first_pass None)
      ∧ length first_pass = M
      ∧ batches fuel self TRAIN ds s = Some (Gen (first_pass ++ more) None, s1)
      ∧ Z.of_nat (length (first_pass ++ more)) = E
      ∧ batch s1 !! TRAIN = Some (Gen rest1 None)
      ∧ batches fuel self TRAIN ds s1 = Some (Gen out2 None, s2)
      ∧ Z.of_nat (length out2) = E
      ∧ batch s2 !! TRAIN = Some (Gen rest2 None).
Proof.
  intros source HE HM HME Hsupplies HInv Hcursor.
  exists (Z.to_nat (2 * E + 3)). intros [|fuel] Hfuel; [lia|].
  pose proof Hsupplies as [Hinv Hderive].
  assert (Inv (set_num_batches 0 s)) as HInv0 by exact (Hinv s id 0%Z HInv).
  destruct (Hderive (set_num_batches 0 s) HInv0 Hcursor)
    as (first_pass & s0 & Hget & Hlen & HInv1).
  pose proof (_get_batches_num_batches self TRAIN source (set_num_batches 0 s)) as Hnum.
  rewrite Hget in Hnum. cbn [snd num_batches set_num_batches] in Hnum.
  (* the first turn of the loop yields the whole first pass *)
  assert (batches (S fuel) self TRAIN ds s
          = batches_loop fuel self TRAIN source
              (set_batch (delete TRAIN) (set_num_batches (Z.of_nat M) s0)) first_pass)
    as Hfirst.
  { unfold batches. fold source.
    rewrite (batches_loop_turn self source E M HE HM HME fuel _ s0 first_pass [] Hget) by lia.
    rewrite Hnum, Hlen. rewrite decide_False by lia. done. }
  edestruct (batches_loop_epoch self source E M Inv HE HM HME Hsupplies fuel
               (set_batch (delete TRAIN) (set_num_batches (Z.of_nat M) s0)) first_pass)
    as (more & s1 & rest1 & Hloop1 & Hmore & Hlive1 & HInv').
  { by apply Hinv. }
  { cbn [num_batches set_batch set_num_batches]. lia. }
  { left. cbn [batch set_batch]. apply lookup_delete_eq. }
  { right. split; [cbn [batch set_batch]; apply lookup_delete_eq|].
    cbn [num_batches set_batch set_num_batches]. lia. }
  cbn [num_batches set_batch set_num_batches] in Hmore.
  (* the second traversal starts from the live cursor *)
  edestruct (batches_loop_epoch self source E M Inv HE HM HME Hsupplies (S fuel)
               (set_num_batches 0 s1) [])
    as (out2 & s2 & rest2 & Hloop2 & Hout2 & Hlive2 & _).
  { exact (Hinv s1 id 0%Z HInv'). }
  { cbn [num_batches set_num_batches]. lia. }
  { right. by exists rest1. }
  { left. cbn [num_batches set_num_batches]. lia. }
  cbn [num_batches set_num_batches] in Hout2.
  exists first_pass, more, s1, rest1, out2, s2, rest2.
  split; [by rewrite Hget|]. split; [done|].
  split; [by rewrite Hfirst|]. split; [rewrite length_app; lia|].
  split; [done|]. split; [exact Hloop2|]. split; [lia|done].
Qed.

Lemma example_data_supplies :
  supplies (R := identity_shuffle) (example_data growing_source None (Some 4%Z) false)
    growing_source 3 (λ _, True).
Proof.
  split; [done|]. intros s _ Hcursor.
  unfold _get_batches. rewrite Hcursor.
  eexists _, _. split; [reflexivity|]. split; [reflexivity|done].
Defined.

Lemma batches_TRAIN_epoch_size_witness :
  ∃ fuel0, ∀ fuel, fuel0 ≤ fuel →
    ∃ out1 s1 out2 s2,
      batches (R := identity_shuffle) fuel
        (example_data growing_source None (Some 4%Z) false) TRAIN None (DataState_init tt)
      = Some (Gen out1 None, s1)
      ∧ length out1 = 4
      ∧ batches (R := identity_shuffle) fuel
          (example_data growing_source None (Some 4%Z) false) TRAIN None s1
        = Some (Gen out2 None, s2)
      ∧ length out2 = 4.
Proof.
  destruct (batches_TRAIN_epoch_size (R := identity_shuffle)
              (example_data growing_source None (Some 4%Z) false) None 4 3 (λ _, True)
              (DataState_init tt))
    as [fuel0 Hfuel0].
  - reflexivity.
  - lia.
  - lia.
  - exact example_data_supplies.
  - exact I.
  - reflexivity.
  - exists fuel0. intros fuel Hfuel.
    destruct (Hfuel0 fuel Hfuel)
      as (first_pass & more & s1 & rest1 & out2 & s2 & rest2 &
          _ & _ & Hrun1 & Hlen1 & _ & Hrun2 & Hlen2 & _).
    exists (first_pass ++ more), s1, out2, s2.
    split; [exact Hrun1|]. split; [lia|]. split; [exact Hrun2|lia].
Defined.

(** Five rows in batches of two give three batches a pass; with an epoch of
    four batches the first traversal yields the three batches and the first
    of the next pass, and takes the second of that pass from the cursor
    without yielding it; the second traversal goes on with the third. *)
Example batches_TRAIN_epoch_example :
  let data := example_data growing_source None (Some 4%Z) false in
  let b12 : gmap string (list pyval) := {[ "a"%string := [PyInt 1; PyInt 2] ]} in
  let b34 : gmap string (list pyval) := {[ "a"%string := [PyInt 3; PyInt 4] ]} in
  let b5 : gmap string (list pyval) := {[ "a"%string := [PyInt 5] ]} in
  ∃ s1 s2,
    batches (R := identity_shuffle) 3 data TRAIN None (DataState_init tt)
    = Some (Gen [b12; b34; b5; b12] None, s1)
    ∧ batch s1 !! TRAIN = Some (Gen [b5] None)
    ∧ batches (R := identity_shuffle) 3 data TRAIN None s1
      = Some (Gen [b5; b12; b34; b5] None, s2)
    ∧ batch s2 !! TRAIN = Some (Gen [b34; b5] None).
Proof.
  intros data b12 b34 b5. eexists _, _.
  split; [vm_compute; reflexivity|].
  split; [vm_compute; reflexivity|].
  split; vm_compute; reflexivity.
Qed.

(** ** Batcher.batchify on rows *)

Lemma Batcher_batch_rows_rows (self : Batcher) (stage : Stage) (rows : list row) :
  (0 < _batch_sizes self stage)%Z →
  Batcher_batch_rows self (gen_of_list (Some <$> rows)) None stage
  = Gen (chunks (Z.to_nat (_batch_sizes self stage)) rows) None.
Proof. intros HB. unfold Batcher_batch_rows. by apply _group_iter_rows. Qed.

Lemma last_chunk_length (n len q : nat) :
  0 < n → 0 < len → q = (len + n - 1) `div` n →
  len - n * (q - 1) = if decide (len `mod` n = 0) then n else len `mod` n.
Proof.
  intros Hn Hlen ->.
  pose proof (Nat.div_mod_eq len n) as Hdm.
  pose proof (Nat.mod_upper_bound len n ltac:(lia)) as Hm.
  set (d := len `div` n) in *. set (m := len `mod` n) in *.
  case_decide as Hz.
  - assert ((len + n - 1) `div` n = d) as ->.
    { symmetry. apply (Nat.div_unique _ _ _ (n - 1)); nia. }
    assert (0 < d) by nia. nia.
  - assert ((len + n - 1) `div` n = S d) as ->.
    { symmetry. apply (Nat.div_unique _ _ _ (m - 1)); nia. }
    nia.
Qed.

(** X1: without a sort key and with a positive batch size [B],
    [Batcher.batchify] on [N] rows yields [ceil(N/B)] batches and ends
    normally; every batch but the last is made of [B] rows; the last is made
    of [N mod B] rows when [B] does not divide [N] and of [B] rows when it
    does; the rows of the batches, in order, are the input. *)
Theorem Batcher_batchify_in_order (self : Batcher) (stage : Stage) (rows : list row) :
  let B := _batch_sizes self stage in
  let N := Z.of_nat (length rows) in
  let input := gen_of_list (Some <$> rows) in
  let out := Batcher_batch_rows self input None stage in
  (0 < B)%Z →
  raised out = None
  ∧ Z.of_nat (length (yielded out)) = ceil_div N B
  ∧ (∀ (i : nat) (b : list row),
       yielded out !! i = Some b → i + 1 < length (yielded out) → Z.of_nat (length b) = B)
  ∧ (∀ b : list row,
       last (yielded out) = Some b →
       Z.of_nat (length b) = if decide (N `mod` B = 0)%Z then B else (N `mod` B)%Z)
  ∧ concat (yielded out) = rows
  ∧ Batcher_batchify self input None stage = Gen (zip_dicts <$> yielded out) None.
Proof.
  intros B N input out HB.
  assert (out = Gen (chunks (Z.to_nat B) rows) None) as Hout.
  { subst out input. by rewrite Batcher_batch_rows_rows. }
  assert (0 < Z.to_nat B) as Hn by lia.
  assert (Z.of_nat (length (chunks (Z.to_nat B) rows)) = ceil_div N B) as Hcount.
  { subst N. rewrite <- (Z2Nat.id B) at 2 by lia.
    by rewrite ceil_div_nat, length_chunks by done. }
  rewrite Hout. cbn [yielded raised].
  split; [done|]. split; [done|]. split; [|split; [|split]].
  - intros i b Hb Hi. rewrite (chunks_length_lookup _ _ _ _ Hn Hb).
    rewrite decide_True by done. lia.
  - intros b Hb. rewrite last_lookup in Hb.
    pose proof (lookup_lt_Some _ _ _ Hb) as Hlt.
    rewrite (chunks_length_lookup _ _ _ _ Hn Hb).
    rewrite decide_False by lia.
    assert (0 < length rows).
    { rewrite chunks_lookup in Hb by done. case_decide; [lia|done]. }
    rewrite (last_chunk_length (Z.to_nat B) (length rows) _ Hn) by
      (done || by rewrite length_chunks).
    assert (N `mod` B = Z.of_nat (length rows `mod` Z.to_nat B))%Z as ->.
    { subst N. by rewrite Nat2Z.inj_mod, Z2Nat.id by lia. }
    repeat case_decide; lia.
  - by apply concat_chunks.
  - unfold Batcher_batchify. fold input. fold out. rewrite Hout.
    by rewrite (gen_map_total _ zip_dicts).
Qed.

Lemma Batcher_batchify_in_order_witness :
  let out := Batcher_batch_rows (mkBatcher 2 3 5) (gen_of_list (Some <$> scenario_rows))
               None EVAL in
  Z.of_nat (length (yielded out)) = ceil_div 5 3
  ∧ (∀ b : list row, last (yielded out) = Some b → Z.of_nat (length b) = 2%Z).
Proof.
  pose proof (Batcher_batchify_in_order (mkBatcher 2 3 5) EVAL scenario_rows) as H.
  cbv zeta in H. destruct H as (_ & Hcount & _ & Hlast & _).
  - reflexivity.
  - split; [exact Hcount|exact Hlast].
Defined.

(** ** Batcher.batchify with a sort key *)

Lemma list_sort_reverse_total (key : key_fn) (group : list row) :
  (∀ r, r ∈ group → ∃ k, key r = Ok k) →
  ∃ out, list_sort_reverse key group = Ok out.
Proof.
  intros Hkey. unfold list_sort_reverse.
  assert (∃ keyed, mapM_result (λ ex, k ← key ex; Ok (k, ex)) group = Ok keyed)
    as [keyed ->]; [|by eexists].
  induction group as [|r group IH]; [by eexists|].
  destruct (Hkey r) as [k Hk]; [left|].
  destruct IH as [keyed Hkeyed]; [intros r' Hr'; apply Hkey; by right|].
  simpl. rewrite Hk. simpl. rewrite Hkeyed. simpl. by eexists.
Qed.

(** X2: with a sort key that is defined on every row and a positive batch
    size, [Batcher.batchify] ends normally and yields one batch for each
    piece of [B] consecutive rows of the input, made of the rows of that piece
    in non-increasing order of the key: rows are sorted inside a group and
    never move to another group. *)
Theorem Batcher_batchify_sorts_each_group (self : Batcher) (stage : Stage)
    (rows : list row) (key : key_fn) :
  let B := _batch_sizes self stage in
  let out := Batcher_batch_rows self (gen_of_list (Some <$> rows)) (Some key) stage in
  (0 < B)%Z →
  (∀ r, r ∈ rows → ∃ k, key r = Ok k) →
  raised out = None
  ∧ Forall2 (λ group b, b ≡ₚ group ∧ sorted_by_key_desc key b)
      (chunks (Z.to_nat B) rows) (yielded out).
Proof.
  intros B out HB Hkey. subst out.
  unfold Batcher_batch_rows, _group_iter. fold B.
  rewrite zip_longest_shared_list by done.
  rewrite chunks_fmap by lia.
  set (h := λ tuple : list (option row),
              match group_step (Some key) tuple with Ok g => g | Raise _ => [] end).
  assert (∀ c, c ∈ chunks (Z.to_nat B) rows →
               ∃ g, group_step (Some key) (fill_up (Z.to_nat B) None (Some <$> c)) = Ok g
                    ∧ g ≡ₚ c ∧ sorted_by_key_desc key g) as Hstep.
  { intros c Hc. unfold group_step. rewrite not_None_fill_up, not_None_fmap_Some.
    destruct (list_sort_reverse_total key c) as [g Hg].
    - intros r Hr. apply Hkey.
      rewrite <- (concat_chunks (Z.to_nat B) rows) by lia.
      apply list_elem_of_In, in_concat. exists c. split; by apply list_elem_of_In.
    - exists g. split; [done|]. by apply list_sort_reverse_Ok. }
  rewrite (gen_map_total _ h).
  - cbn [yielded raised]. split; [done|].
    rewrite <- !list_fmap_compose.
    apply Forall2_fmap_r, Forall_Forall2_diag, Forall_forall.
    intros c Hc. destruct (Hstep c Hc) as (g & Hg & Hperm & Hsorted).
    unfold h, compose. by rewrite Hg.
  - cbn [yielded]. intros tuple Htuple.
    rewrite <- list_fmap_compose in Htuple.
    apply list_elem_of_fmap in Htuple as (c & -> & Hc).
    destruct (Hstep c Hc) as (g & Hg & _). unfold h, compose. by rewrite Hg.
Qed.

Lemma Batcher_batchify_sorts_each_group_witness :
  yielded (Batcher_batch_rows (mkBatcher 2 2 2) (gen_of_list (Some <$> scenario_rows))
             (Some scenario_key) TRAIN)
  = [ [scenario_row 2; scenario_row 1]; [scenario_row 4; scenario_row 3];
      [scenario_row 5] ]
  ∧ raised (Batcher_batch_rows (mkBatcher 2 2 2) (gen_of_list (Some <$> scenario_rows))
              (Some scenario_key) TRAIN) = None.
Proof.
  destruct (Batcher_batchify_sorts_each_group (mkBatcher 2 2 2) TRAIN scenario_rows
              scenario_key) as [Hraised _].
  - reflexivity.
  - intros r Hr.
    repeat (apply elem_of_cons in Hr as [->|Hr]; [eexists; reflexivity|]).
    by apply elem_of_nil in Hr.
  - split; [vm_compute; reflexivity|exact Hraised].
Defined.

(** ** An iterable that raises *)

Lemma zip_longest_fuel_Some {A : Type} (fuel n : nat) (fill : A) (l : list A) e :
  0 < n → length l < fuel →
  zip_longest_fuel fuel n fill l (Some e)
  = Gen (chunks n (take (length l `div` n * n) l)) (Some e).
Proof.
  intros Hn. revert l. induction fuel as [|fuel IH]; intros l Hfuel; [lia|].
  cbn [zip_longest_fuel]. case_decide as Hlen.
  - rewrite Nat.div_small by done. by rewrite take_0.
  - assert (length l `div` n = S (length (drop n l) `div` n)) as Hdiv.
    { rewrite length_drop.
      replace (length l) with ((length l - n) + 1 * n) at 1 by lia.
      rewrite Nat.div_add by lia. lia. }
    rewrite IH by (rewrite length_drop; lia).
    rewrite Hdiv. cbn [yielded raised].
    set (q := length (drop n l) `div` n).
    assert (take (S q * n) l ≠ []) as Hne.
    { intros Hnil. apply (f_equal length) in Hnil.
      rewrite length_take in Hnil. simpl in Hnil. lia. }
    rewrite (chunks_unfold n (take (S q * n) l)) by done.
    rewrite take_take, take_drop_commute.
    replace (n `min` (S q * n)) with n by lia.
    by replace (n + q * n) with (S q * n) by lia.
Qed.

(** X3: when the iterable raises after [N] rows, [Batcher.batchify] (no
    sort key, positive batch size [B]) yields the batches of the first
    [floor(N/B) * B] rows and then raises the exception of the iterable: the
    [N mod B] rows that were read into the group that was being filled are
    not emitted. *)
Theorem Batcher_batchify_loses_partial_group (self : Batcher) (stage : Stage)
    (rows : list row) (e : exn) :
  let B := _batch_sizes self stage in
  let N := length rows in
  let out := Batcher_batch_rows self (Gen (Some <$> rows) (Some e)) None stage in
  (0 < B)%Z →
  raised out = Some e
  ∧ yielded out = chunks (Z.to_nat B) (take (N `div` Z.to_nat B * Z.to_nat B) rows)
  ∧ concat (yielded out) = take (N - N `mod` Z.to_nat B) rows
  ∧ Batcher_batchify self (Gen (Some <$> rows) (Some e)) None stage
    = Gen (zip_dicts <$> yielded out) (Some e).
Proof.
  intros B N out HB.
  assert (0 < Z.to_nat B) as Hn by lia.
  assert (out = Gen (chunks (Z.to_nat B) (take (N `div` Z.to_nat B * Z.to_nat B) rows))
                  (Some e)) as Hout.
  { subst out. unfold Batcher_batch_rows, _group_iter, zip_longest_shared. fold B.
    rewrite decide_False by lia. cbn [yielded raised].
    rewrite zip_longest_fuel_Some by lia.
    rewrite (gen_map_total _ not_None) by done. cbn [yielded raised].
    rewrite length_fmap. fold N. rewrite <- fmap_take, chunks_fmap by done.
    rewrite <- list_fmap_compose. f_equal.
    rewrite <- (list_fmap_id (chunks _ _)) at 2.
    apply list_fmap_ext. intros _ c _. simpl. apply not_None_fmap_Some. }
  rewrite Hout. cbn [yielded raised].
  split; [done|]. split; [done|]. split.
  - rewrite concat_chunks by done. f_equal.
    pose proof (Nat.div_mod_eq N (Z.to_nat B)). lia.
  - unfold Batcher_batchify. fold out. rewrite Hout.
    by rewrite (gen_map_total _ zip_dicts).
Qed.

Lemma Batcher_batchify_loses_partial_group_witness :
  Batcher_batch_rows (mkBatcher 2 2 2)
    (Gen (Some <$> scenario_rows) (Some (ConverterError "a"))) None TRAIN
  = Gen [ [scenario_row 1; scenario_row 2]; [scenario_row 3; scenario_row 4] ]
      (Some (ConverterError "a")).
Proof.
  destruct (Batcher_batchify_loses_partial_group (mkBatcher 2 2 2) TRAIN scenario_rows
              (ConverterError "a")) as (Hraised & Hyielded & _).
  - reflexivity.
  - destruct (Batcher_batch_rows _ _ _ _) as [ys r]. simpl in *.
    by rewrite Hraised, Hyielded.
Defined.

(** ** PoolingBatcher with any shuffle *)

Lemma concat_Permutation {A : Type} (l1 l2 : list (list A)) :
  l1 ≡ₚ l2 → concat l1 ≡ₚ concat l2.
Proof.
  induction 1 as [|x l1 l2 _ IH|x y l|l1 l2 l3 _ IH1 _ IH2]; simpl.
  - done.
  - by rewrite IH.
  - rewrite !app_assoc. by rewrite (Permutation_app_comm x y).
  - by rewrite IH1.
Qed.

Section shuffled_pools.
Context {rng : Type} {R : RandomSource rng} {RP : ShufflePermutes rng}.

(** The batches of a pool are the consecutive pieces of a rearrangement of
    the pool, in some order. *)
Lemma pool_batches_chunks (batch_size : Z) sorted (pool : list row) (g : rng) :
  (0 < batch_size)%Z →
  ∃ bs pool',
    pool_batches batch_size sorted pool g
    = (Ok bs, (pool_batches batch_size sorted pool g).2)
    ∧ bs ≡ₚ chunks (Z.to_nat batch_size) pool' ∧ pool' ≡ₚ pool.
Proof.
  intros HB. destruct sorted.
  - rewrite pool_batches_sorted by lia. eexists _, pool.
    split; [done|]. split; [|done]. simpl.
    rewrite <- (slices_chunks pool batch_size) by done.
    apply fmap_Permutation. symmetry. apply shuffle_perm.
  - rewrite pool_batches_unsorted by lia. eexists _, (shuffle pool g).1.
    split; [done|]. split; [|symmetry; apply shuffle_perm]. simpl.
    rewrite <- (shuffle_length pool g). by rewrite slices_chunks.
Qed.

Lemma pooling_emit_pools (batch_size : Z) sorted (pools : list (list row)) r (g : rng) :
  (0 < batch_size)%Z →
  ∃ bss,
    yielded (pooling_emit batch_size sorted pools r g).1 = concat bss
    ∧ raised (pooling_emit batch_size sorted pools r g).1 = r
    ∧ Forall2 (λ pool bs,
                 ∃ pool', bs ≡ₚ chunks (Z.to_nat batch_size) pool' ∧ pool' ≡ₚ pool)
        pools bss.
Proof.
  intros HB. revert g. induction pools as [|pool pools IH]; intros g.
  { exists []. by repeat split. }
  cbn [pooling_emit].
  destruct (pool_batches_chunks batch_size sorted pool g HB)
    as (bs & pool' & -> & Hbs & Hpool').
  destruct (IH (pool_batches batch_size sorted pool g).2) as (bss & Hy & Hr & Hall).
  destruct (pooling_emit batch_size sorted pools r _) as [out g'].
  simpl in *. exists (bs :: bss). split; [by rewrite Hy|]. split; [done|].
  constructor; [by exists pool'|done].
Qed.
End shuffled_pools.

Lemma chunks_Permutation_facts {A : Type} (n : nat) (pool pool' : list A)
    (bs : list (list A)) :
  0 < n → bs ≡ₚ chunks n pool' → pool' ≡ₚ pool →
  concat bs ≡ₚ pool
  ∧ length bs = length (chunks n pool)
  ∧ Forall (λ b, 0 < length b ≤ n) bs.
Proof.
  intros Hn Hbs Hpool. split; [|split].
  - rewrite (concat_Permutation _ _ Hbs), concat_chunks by done. done.
  - rewrite (Permutation_length Hbs), !length_chunks by done.
    by rewrite (Permutation_length Hpool).
  - rewrite Hbs. by apply chunks_Forall_length.
Qed.

(** X4: for any shuffle that permutes, without a sort key, with a positive
    batch size [B] and a positive number [P] of batches per pool,
    [PoolingBatcher.batchify] on [N] rows ends normally and yields
    [ceil(N/B)] batches of one to [B] rows each; the batches come pool after
    pool: for each piece of [B*P] consecutive rows of the input there is a run
    of batches that holds exactly the rows of that piece, so a row is never
    moved out of its pool, and all batches together hold every row once. *)
Theorem PoolingBatcher_batchify_shuffles_within_pools
    {rng : Type} {R : RandomSource rng} {RP : ShufflePermutes rng}
    (self : PoolingBatcher) (stage : Stage) (rows : list row) (g : rng) :
  let B := _batch_sizes (base self) stage in
  let P := pool_num_batches self in
  let out := (PoolingBatcher_batch_rows self (gen_of_list (Some <$> rows)) None stage g).1 in
  (0 < B)%Z → (0 < P)%Z →
  raised out = None
  ∧ Z.of_nat (length (yielded out)) = ceil_div (Z.of_nat (length rows)) B
  ∧ Forall (λ b, 0 < length b ∧ (Z.of_nat (length b) ≤ B)%Z) (yielded out)
  ∧ concat (yielded out) ≡ₚ rows
  ∧ ∃ runs : list (list (list row)),
      yielded out = concat runs
      ∧ Forall2 (λ pool run, concat run ≡ₚ pool) (chunks (Z.to_nat (B * P)) rows) runs.
Proof.
  intros B P out HB HP.
  assert (0 < Z.to_nat B) as Hn by lia.
  subst out. unfold PoolingBatcher_batch_rows. fold B. fold P.
  rewrite _group_iter_rows by lia. cbn [yielded raised].
  destruct (pooling_emit_pools B (bool_decide (is_Some (@None key_fn)))
              (chunks (Z.to_nat (B * P)) rows) None g HB) as (runs & Hy & Hr & Hall).
  rewrite Hy, Hr. clear Hy Hr.
  assert (Forall2 (λ pool run,
                     concat run ≡ₚ pool ∧ length run = length (chunks (Z.to_nat B) pool)
                     ∧ Forall (λ b, 0 < length b ≤ Z.to_nat B) run)
            (chunks (Z.to_nat (B * P)) rows) runs) as Hall'.
  { eapply Forall2_impl; [exact Hall|]. intros pool run (pool' & Hrun & Hpool').
    by eapply chunks_Permutation_facts. }
  clear Hall.
  assert (length (concat runs)
          = length (concat (chunks (Z.to_nat B) <$> chunks (Z.to_nat (B * P)) rows))
          ∧ Forall (λ b, 0 < length b ≤ Z.to_nat B) (concat runs)
          ∧ concat (concat runs) ≡ₚ concat (chunks (Z.to_nat (B * P)) rows))
    as (Hlen & Hsizes & Hperm).
  { induction Hall' as [|pool run pools runs' (Hc & Hl & Hf) _ (IH1 & IH2 & IH3)].
    - by repeat split.
    - rewrite fmap_cons, !concat_cons, !length_app, concat_app.
      split; [lia|]. split; [by apply Forall_app|]. by rewrite Hc, IH3. }
  split; [done|]. split; [|split; [|split]].
  - rewrite Hlen, Z2Nat.inj_mul, concat_chunks_chunks by lia.
    rewrite <- (Z2Nat.id B) at 2 by lia.
    by rewrite ceil_div_nat, length_chunks by done.
  - eapply Forall_impl; [exact Hsizes|]. simpl. intros b Hb. lia.
  - rewrite Hperm, concat_chunks by lia. done.
  - exists runs. split; [done|].
    eapply Forall2_impl; [exact Hall'|]. by intros pool run (? & _).
Qed.

Lemma PoolingBatcher_batchify_shuffles_within_pools_witness :
  let out := (PoolingBatcher_batch_rows (R := reverse_shuffle)
                (mkPoolingBatcher (mkBatcher 2 2 2) 2)
                (gen_of_list (Some <$> scenario_rows)) None TRAIN tt).1 in
  Z.of_nat (length (yielded out)) = ceil_div 5 2 ∧ concat (yielded out) ≡ₚ scenario_rows.
Proof.
  destruct (PoolingBatcher_batchify_shuffles_within_pools (R := reverse_shuffle)
              (RP := reverse_shuffle_permutes) (mkPoolingBatcher (mkBatcher 2 2 2) 2)
              TRAIN scenario_rows tt) as (_ & Hcount & _ & Hperm & _).
  - reflexivity.
  - reflexivity.
  - split; [exact Hcount|exact Hperm].
Defined.

(** ** zip_dicts: a missing field and a field that is None *)

(** X5: a row that lacks a field and the same row with the field set to
    [None] give the same batch, as soon as another row has the field: in the
    column the two cannot be told apart. *)
Theorem zip_dicts_None_is_missing (l1 l2 : list row) (d : row) (key : string) :
  d !! key = None → key ∈ all_keys (l1 ++ l2) →
  zip_dicts (l1 ++ <[key := PyNone]> d :: l2) = zip_dicts (l1 ++ d :: l2).
Proof.
  intros Hd Hkey.
  assert (all_keys (l1 ++ <[key := PyNone]> d :: l2) = all_keys (l1 ++ d :: l2)) as Hkeys.
  { apply set_eq. intros k. rewrite !elem_of_all_keys. split.
    - intros (d' & Hin & Hk). apply elem_of_app in Hin as [Hin|Hin].
      + exists d'. split; [apply elem_of_app; by left|done].
      + apply elem_of_cons in Hin as [->|Hin].
        * destruct (decide (k = key)) as [->|Hne].
          -- apply elem_of_all_keys in Hkey as (d'' & Hin'' & Hk'').
             exists d''. split; [|done].
             apply elem_of_app in Hin'' as [?|?]; apply elem_of_app;
               [by left|right; by right].
          -- rewrite lookup_insert_ne in Hk by done.
             exists d. split; [|done]. apply elem_of_app. right. left.
        * exists d'. split; [|done]. apply elem_of_app. right. by right.
    - intros (d' & Hin & Hk). apply elem_of_app in Hin as [Hin|Hin].
      + exists d'. split; [apply elem_of_app; by left|done].
      + apply elem_of_cons in Hin as [->|Hin].
        * exists (<[key := PyNone]> d). split; [apply elem_of_app; right; left|].
          destruct (decide (k = key)) as [->|Hne].
          -- rewrite lookup_insert_eq. eauto.
          -- by rewrite lookup_insert_ne.
        * exists d'. split; [|done]. apply elem_of_app. right. by right. }
  apply map_eq. intros k. rewrite !zip_dicts_lookup, Hkeys.
  case_decide; [|done]. f_equal.
  rewrite !fmap_app, !fmap_cons. do 2 f_equal.
  unfold dict_get. destruct (decide (k = key)) as [->|Hne].
  - by rewrite lookup_insert_eq, Hd.
  - by rewrite lookup_insert_ne.
Qed.

Lemma zip_dicts_None_is_missing_witness :
  zip_dicts ([scenario_row 1] ++ <[ "a"%string := PyNone ]> ∅ :: [])
  = zip_dicts ([scenario_row 1] ++ ∅ :: []).
Proof.
  apply (zip_dicts_None_is_missing [scenario_row 1] [] ∅ "a"%string).
  - reflexivity.
  - apply elem_of_all_keys. exists (scenario_row 1).
    split; [left|]. eexists. reflexivity.
Defined.

(** ** numberize_rows *)
Section numberize_keys.
Context {T : Type}.
Implicit Types (tzs : list (string * Tensorizer T)) (r acc : row).

Lemma numberize_fields_dom tzs r acc nr :
  numberize_fields tzs r acc = Ok nr → dom nr = dom acc ∪ tensorizer_names tzs.
Proof.
  revert acc. induction tzs as [|[name t] tzs IH]; intros acc Hnr.
  - injection Hnr as <-. unfold tensorizer_names. set_solver.
  - cbn [numberize_fields] in Hnr.
    destruct (numberize t r) as [v|e]; simpl in Hnr; [|done].
    rewrite (IH _ Hnr), dom_insert_L. unfold tensorizer_names. set_solver.
Qed.

Lemma numberize_fields_total tzs r acc :
  (∀ name t, (name, t) ∈ tzs → ∃ v, numberize t r = Ok v) →
  ∃ nr, numberize_fields tzs r acc = Ok nr.
Proof.
  revert acc. induction tzs as [|[name t] tzs IH]; intros acc Hnum; [by eexists|].
  cbn [numberize_fields]. destruct (Hnum name t) as [v ->]; [left|]. simpl.
  apply IH. intros name' t' Hin. apply (Hnum name' t'). by right.
Qed.

Lemma gen_map_list_length {A B : Type} (f : A → result B) (l : list A) (r : option exn) :
  length (yielded (gen_map_list f l r)) ≤ length l
  ∧ (raised (gen_map_list f l None) = None →
     length (yielded (gen_map_list f l None)) = length l).
Proof.
  induction l as [|x l [IH1 IH2]]; simpl; [done|].
  destruct (f x); simpl; [|split; [lia|done]]. split; [lia|]. intros Hr. by rewrite IH2.
Qed.
End numberize_keys.

(** X6: every row that [numberize_rows] yields has exactly the names of the
    tensorizers as its keys, whatever the keys of the raw row; it yields at
    most one row per raw row, one per raw row when it ends normally, and when
    it raises, the exception is the one a converter raised on a raw row. *)
Theorem numberize_rows_keys {T : Type} (self : Data T) (rows : list row) :
  let out := numberize_rows self (gen_of_list rows) in
  Forall (λ nr : row, dom nr = tensorizer_names (tensorizers self)) (yielded out)
  ∧ length (yielded out) ≤ length rows
  ∧ (raised out = None → length (yielded out) = length rows)
  ∧ (∀ e, raised out = Some e → converter_raises self rows e).
Proof.
  intros out. split; [|split; [|split]].
  - apply gen_map_Forall. intros r nr _ Hnr.
    rewrite (numberize_fields_dom _ _ _ _ Hnr), dom_empty_L. apply (left_id_L ∅ (∪)).
  - apply gen_map_list_length.
  - apply (proj2 (gen_map_list_length _ rows None)).
  - intros e He. apply gen_map_list_raised_inv in He as (i & r & Hi & Hr).
    apply numberize_fields_Raise_inv in Hr as (name & t & Hin & Ht).
    by exists i, r, name, t.
Qed.

(** ** pad_and_tensorize_batches *)
Section tensorize_keys.
Context {T : Type}.
Implicit Types (tzs : list (string * Tensorizer T)) (b : Batch) (td : gmap string T).

Lemma tensorize_fields_dom tzs b td0 td :
  tensorize_fields tzs b td0 = Ok td → dom td = dom td0 ∪ tensorizer_names tzs.
Proof.
  revert td0. induction tzs as [|[name t] tzs IH]; intros td0 Htd.
  - injection Htd as <-. unfold tensorizer_names. set_solver.
  - cbn [tensorize_fields] in Htd.
    destruct (if is_metric t then _ else _) as [x|e]; simpl in Htd; [|done].
    rewrite (IH _ Htd), dom_insert_L. unfold tensorizer_names. set_solver.
Qed.

Lemma tensorize_fields_total tzs b td0 :
  (∀ name t a, (name, t) ∈ tzs → ∃ x, tensorize t a = Ok x) →
  (∀ name t, (name, t) ∈ tzs → is_metric t = false → is_Some (b !! name)) →
  ∃ td, tensorize_fields tzs b td0 = Ok td.
Proof.
  revert td0. induction tzs as [|[name t] tzs IH]; intros td0 Htens Hcol; [by eexists|].
  cbn [tensorize_fields].
  assert (∃ x, (if is_metric t then tensorize t (WholeBatch b)
                else match b !! name with
                     | Some col => tensorize t (Column col)
                     | None => Raise (KeyError name)
                     end) = Ok x) as [x ->].
  { destruct (is_metric t) eqn:Hm.
    - apply (Htens name). left.
    - destruct (Hcol name t) as [col ->]; [left|done|]. apply (Htens name). left. }
  simpl. apply IH.
  - intros name' t' a Hin. apply (Htens name'). by right.
  - intros name' t' Hin. apply Hcol. by right.
Qed.

Lemma tensorize_fields_missing_column tzs b td0 name t :
  (name, t) ∈ tzs → is_metric t = false → b !! name = None →
  ∃ e, tensorize_fields tzs b td0 = Raise e.
Proof.
  revert td0. induction tzs as [|[name' t'] tzs IH]; intros td0 Hin Hm Hcol.
  { by apply elem_of_nil in Hin. }
  cbn [tensorize_fields].
  destruct (if is_metric t' then _ else _) as [x|e] eqn:Hx; simpl; [|by eexists].
  apply elem_of_cons in Hin as [[= -> ->]|Hin].
  - rewrite Hm, Hcol in Hx. done.
  - by apply IH.
Qed.
End tensorize_keys.

(** X7: every tensor dict that [pad_and_tensorize_batches] yields has
    exactly the names of the tensorizers as its keys, and there is at most one
    per batch; a batch without the column of a tensorizer that is not a
    [MetricTensorizer] (an empty batch, for one) ends the stream with an
    exception, at that batch or before it. *)
Theorem pad_and_tensorize_batches_keys {T : Type}
    (tensorizers : list (string * Tensorizer T)) (batches : list Batch) (r : option exn)
    (i : nat) (b : Batch) (name : string) (t : Tensorizer T) :
  let out := pad_and_tensorize_batches tensorizers (Gen batches r) in
  Forall (λ td : gmap string T, dom td = tensorizer_names tensorizers) (yielded out)
  ∧ length (yielded out) ≤ length batches
  ∧ (batches !! i = Some b → (name, t) ∈ tensorizers → is_metric t = false →
     b !! name = None →
     length (yielded out) ≤ i ∧ ∃ e, raised out = Some e).
Proof.
  intros out. split; [|split].
  - apply gen_map_Forall. intros b' td _ Htd.
    rewrite (tensorize_fields_dom _ _ _ _ Htd), dom_empty_L. apply (left_id_L ∅ (∪)).
  - apply gen_map_list_length.
  - intros Hi Hin Hm Hcol.
    destruct (tensorize_fields_missing_column tensorizers b ∅ name t Hin Hm Hcol)
      as [e He].
    subst out. unfold pad_and_tensorize_batches, gen_map. cbn [yielded raised].
    clear Hin Hm Hcol. revert i Hi. induction batches as [|b' batches IH]; intros i Hi.
    { done. }
    simpl. destruct (tensorize_fields tensorizers b' ∅) as [td|e'] eqn:Hb'; simpl.
    + destruct i as [|i]; simpl in Hi; [congruence|].
      destruct (IH i Hi) as [Hlen Hr]. split; [lia|done].
    + split; [lia|by eexists].
Qed.

Lemma pad_and_tensorize_batches_keys_witness :
  ∃ e, raised (pad_and_tensorize_batches [("a"%string, field_a_tensorizer)]
                 (Batcher_batchify (mkBatcher 2 2 2) (gen_of_list input_with_None)
                    None TRAIN)) = Some e.
Proof.
  destruct (pad_and_tensorize_batches_keys [("a"%string, field_a_tensorizer)]
              [∅; {[ "a"%string := [PyInt 1; PyInt 2] ]}] None 0 ∅ "a"%string
              field_a_tensorizer) as (_ & _ & Hraise).
  destruct Hraise as [_ [e He]].
  - reflexivity.
  - left.
  - reflexivity.
  - reflexivity.
  - exists e. exact He.
Defined.

(** ** Data with a plain Batcher: what one derivation gives *)
Section plain_pipeline.
Context {T rng : Type} {R : RandomSource rng}.
Implicit Types (self : Data T) (s : DataState T rng).

Lemma zip_dicts_column_of_keys (c : list row) (names : gset string) (name : string) :
  c ≠ [] → Forall (λ nr : row, dom nr = names) c → name ∈ names →
  is_Some (zip_dicts c !! name).
Proof.
  intros Hne Hdom Hname. rewrite zip_dicts_lookup.
  rewrite decide_True; [eauto|].
  destruct c as [|nr c]; [done|].
  apply elem_of_all_keys. exists nr. split; [left|].
  apply elem_of_dom. apply Forall_cons in Hdom as [-> _]. done.
Qed.

Lemma _get_batches_plain self (b : Batcher) stage source s :
  batcher self = PlainBatcher b → (0 < train_batch_size b)%Z →
  in_memory self = false → sort_key self = None →
  (∀ name t r, (name, t) ∈ tensorizers self → ∃ v, numberize t r = Ok v) →
  (∀ name t a, (name, t) ∈ tensorizers self → ∃ x, tensorize t a = Ok x) →
  batch s !! stage = None →
  ∃ items,
    _get_batches self stage source s
    = (Ok (Gen items None), set_batch (<[stage := Gen items None]>) (count_read s))
    ∧ Z.of_nat (length items)
      = ceil_div (Z.of_nat (length (stage_rows source stage (reads s))))
          (train_batch_size b)
    ∧ Forall (λ td : gmap string T, dom td = tensorizer_names (tensorizers self)) items.
Proof.
  intros Hb HB Hmem Hsk Hnum Htens Hcursor.
  set (rows := stage_rows source stage (reads s)).
  set (n := Z.to_nat (train_batch_size b)).
  (* the numberized rows *)
  set (h := λ r : row, match numberize_fields (tensorizers self) r ∅ with
                       | Ok nr => nr | Raise _ => ∅ end).
  assert (∀ r, numberize_fields (tensorizers self) r ∅ = Ok (h r)) as Hh.
  { intros r. unfold h.
    destruct (numberize_fields_total (tensorizers self) r ∅) as [nr ->]; [|done].
    intros name t Hin. by eapply Hnum. }
  assert (numberize_rows self (gen_of_list rows) = Gen (h <$> rows) None) as Hnr.
  { unfold numberize_rows. by rewrite (gen_map_total _ h). }
  assert (Forall (λ nr : row, dom nr = tensorizer_names (tensorizers self)) (h <$> rows))
    as Hdom.
  { apply Forall_fmap, Forall_forall. intros r _. simpl.
    rewrite (numberize_fields_dom _ _ _ _ (Hh r)), dom_empty_L. apply (left_id_L ∅ (∪)). }
  (* the tensor dicts *)
  set (k := λ c : list row, match tensorize_fields (tensorizers self) (zip_dicts c) ∅ with
                            | Ok td => td | Raise _ => ∅ end).
  assert (∀ c, c ∈ chunks n (h <$> rows) →
               tensorize_fields (tensorizers self) (zip_dicts c) ∅ = Ok (k c)) as Hk.
  { intros c Hc. unfold k.
    destruct (tensorize_fields_total (tensorizers self) (zip_dicts c) ∅) as [td ->];
      [done| |done].
    intros name t Hin _.
    pose proof (chunks_Forall_length n (h <$> rows) ltac:(lia)) as Hlen.
    rewrite Forall_forall in Hlen. specialize (Hlen c Hc).
    apply (zip_dicts_column_of_keys c (tensorizer_names (tensorizers self))).
    - intros ->. simpl in Hlen. lia.
    - apply Forall_forall. intros nr Hin'. rewrite Forall_forall in Hdom. apply Hdom.
      rewrite <- (concat_chunks n (h <$> rows)) by lia.
      apply list_elem_of_In, in_concat. exists c. split; by apply list_elem_of_In.
    - unfold tensorizer_names. apply elem_of_list_to_set, list_elem_of_fmap.
      by exists (name, t). }
  exists (k <$> chunks n (h <$> rows)).
  assert (_get_batches self stage source s
          = (Ok (Gen (k <$> chunks n (h <$> rows)) None),
             set_batch (<[stage := Gen (k <$> chunks n (h <$> rows)) None]>)
               (count_read s))) as Hget.
  { unfold _get_batches, get_numberized_rows. rewrite Hcursor, Hmem. fold rows.
    rewrite Hnr. cbn [yielded raised].
    unfold Data_sort_key_fn. rewrite Hsk, Hb. cbn [batcher_batchify].
    unfold Batcher_batchify.
    change (Gen (Some <$> (h <$> rows)) None) with (gen_of_list (Some <$> (h <$> rows))).
    rewrite Batcher_batch_rows_rows by done. cbn [_batch_sizes]. fold n.
    rewrite (gen_map_total _ zip_dicts) by done. cbn [yielded raised].
    unfold pad_and_tensorize_batches.
    rewrite (gen_map_total _ (λ bt, match tensorize_fields (tensorizers self) bt ∅ with
                                    | Ok td => td | Raise _ => ∅ end)).
    - cbn [yielded raised]. rewrite <- list_fmap_compose. done.
    - cbn [yielded]. intros bt Hbt. apply list_elem_of_fmap in Hbt as (c & -> & Hc).
      by rewrite (Hk c Hc). }
  split; [exact Hget|]. split.
  - rewrite length_fmap, length_chunks, length_fmap by lia.
    fold rows. assert (train_batch_size b = Z.of_nat n) as -> by (subst n; lia).
    by rewrite ceil_div_nat by lia.
  - apply Forall_fmap, Forall_forall. intros c Hc. simpl.
    rewrite (tensorize_fields_dom _ _ _ _ (Hk c Hc)), dom_empty_L.
    apply (left_id_L ∅ (∪)).
Qed.
End plain_pipeline.

(** X8: with a plain [Batcher] of positive train batch size [B], the cache
    off, no sort key and converters that never raise, the derivation of the
    stream of any phase reads the phase's rows once and gives a cursor of
    [ceil(N/B)] tensor dicts that ends normally, [N] being the number of rows
    read, each with exactly the names of the tensorizers as keys; the batch
    size is the one of [TRAIN] for every phase; the cache stays as it was. *)
Theorem _get_batches_plain_pipeline
    {T rng : Type} {R : RandomSource rng}
    (self : Data T) (b : Batcher) (stage : Stage) (source : DataSource)
    (s : DataState T rng) :
  batcher self = PlainBatcher b → (0 < train_batch_size b)%Z →
  in_memory self = false → sort_key self = None →
  (∀ name t r, (name, t) ∈ tensorizers self → ∃ v, numberize t r = Ok v) →
  (∀ name t a, (name, t) ∈ tensorizers self → ∃ x, tensorize t a = Ok x) →
  batch s !! stage = None →
  ∃ items s',
    _get_batches self stage source s = (Ok (Gen items None), s')
    ∧ Z.of_nat (length items)
      = ceil_div (Z.of_nat (length (stage_rows source stage (reads s))))
          (train_batch_size b)
    ∧ Forall (λ td : gmap string T, dom td = tensorizer_names (tensorizers self)) items
    ∧ batch s' !! stage = Some (Gen items None)
    ∧ reads s' = S (reads s)
    ∧ numberized_cache s' = numberized_cache s.
Proof.
  intros Hb HB Hmem Hsk Hnum Htens Hcursor.
  destruct (_get_batches_plain self b stage source s) as (items & Hget & Hlen & Hdom);
    try done.
  eexists items, _. split; [exact Hget|]. split; [done|]. split; [done|].
  split; [|done]. cbn [batch set_batch]. apply lookup_insert_eq.
Qed.

Lemma field_a_tensorizer_tensorize_total (a : tensorize_arg) :
  ∃ x, tensorize field_a_tensorizer a = Ok x.
Proof. destruct a; by eexists. Qed.

Lemma _get_batches_plain_pipeline_witness :
  ∃ items s',
    _get_batches (R := identity_shuffle)
      (Data_init growing_source
         [("a"%string, mkTensorizer false (λ r, Ok (dict_get r "a"))
                         (tensorizer_sort_key field_a_tensorizer)
                         (tensorize field_a_tensorizer))]
         (Some (PlainBatcher (mkBatcher 2 1 1))) None None false)
      EVAL growing_source (count_read (DataState_init tt))
    = (Ok (Gen items None), s')
    ∧ Z.of_nat (length items) = ceil_div 1 2.
Proof.
  destruct (_get_batches_plain_pipeline (R := identity_shuffle)
              (Data_init growing_source
                 [("a"%string, mkTensorizer false (λ r, Ok (dict_get r "a"))
                                 (tensorizer_sort_key field_a_tensorizer)
                                 (tensorize field_a_tensorizer))]
                 (Some (PlainBatcher (mkBatcher 2 1 1))) None None false)
              (mkBatcher 2 1 1) EVAL growing_source (count_read (DataState_init tt)))
    as (items & s' & Hget & Hlen & _).
  - reflexivity.
  - simpl. lia.
  - reflexivity.
  - reflexivity.
  - intros name t r Hin. apply list_elem_of_singleton in Hin. injection Hin as -> ->.
    by eexists.
  - intros name t a Hin. apply list_elem_of_singleton in Hin. injection Hin as -> ->.
    apply field_a_tensorizer_tensorize_total.
  - reflexivity.
  - exists items, s'. split; [exact Hget|exact Hlen].
Defined.

(** ** Data.batches: one traversal of a phase without epochs *)
Section single_pass.
Context {T rng : Type} {R : RandomSource rng}.
Implicit Types (self : Data T) (s : DataState T rng) (items : list (gmap string T)).

Lemma for_batches_no_epoch stage (epoch_size : option Z) items (k : Z) :
  stage ≠ TRAIN ∨ epoch_size = None →
  for_batches stage epoch_size items k
  = mkForOutcome items [] (k + Z.of_nat (length items)) false.
Proof.
  intros Hno. revert k. induction items as [|b items IH]; intros k.
  - simpl. by rewrite Z.add_0_r.
  - cbn [for_batches].
    assert (bool_decide (stage = TRAIN) && bool_decide (Some k = epoch_size) = false)
      as ->.
    { destruct Hno as [Hst| ->].
      - by rewrite bool_decide_eq_false_2.
      - rewrite (bool_decide_eq_false_2 (Some k = None)) by done. apply andb_false_r. }
    rewrite IH. cbn [for_yielded for_rest for_num_batches for_returned length].
    f_equal. lia.
Qed.

Lemma batches_loop_single_pass fuel self stage source s acc items r s1 :
  stage ≠ TRAIN ∨ epoch_size self = None →
  _get_batches self stage source s = (Ok (Gen items r), s1) →
  batches_loop (S fuel) self stage source s acc
  = Some (Gen (acc ++ items) r,
          set_batch (match r with
                     | None => delete stage
                     | Some _ => <[stage := Gen [] None]>
                     end)
            (set_num_batches (num_batches s1 + Z.of_nat (length items)) s1)).
Proof.
  intros Hno Hget. cbn [batches_loop]. rewrite Hget. cbn [yielded raised].
  rewrite for_batches_no_epoch by done.
  cbn [for_yielded for_rest for_num_batches for_returned].
  destruct r as [e|]; [done|].
  assert (negb (bool_decide (stage = TRAIN)) || no_epoch_size (epoch_size self) = true)
    as ->; [|done].
  destruct Hno as [Hst| ->].
  - by rewrite bool_decide_eq_false_2.
  - apply orb_true_r.
Qed.
End single_pass.

(** X9: for [EVAL] and [TEST], and for [TRAIN] without an epoch size, a
    traversal of [batches] yields all the batches of the stream of the phase
    and ends as the stream ends; one turn of the loop is enough.  When the
    stream ends normally the cursor is cleared, so the next traversal derives
    the stream anew; when it raises, the spent cursor stays. *)
Theorem batches_single_pass
    {T rng : Type} {R : RandomSource rng}
    (self : Data T) (stage : Stage) (ds : option DataSource) (s : DataState T rng)
    (items : list (gmap string T)) (r : option exn) (s1 : DataState T rng) (fuel : nat) :
  let source := default (data_source self) ds in
  stage ≠ TRAIN ∨ epoch_size self = None →
  _get_batches self stage source (set_num_batches 0 s) = (Ok (Gen items r), s1) →
  ∃ s',
    batches (S fuel) self stage ds s = Some (Gen items r, s')
    ∧ batch s' !! stage = match r with None => None | Some _ => Some (Gen [] None) end
    ∧ num_batches s' = Z.of_nat (length items)
    ∧ numberized_cache s' = numberized_cache s1
    ∧ reads s' = reads s1.
Proof.
  intros source Hno Hget.
  pose proof (_get_batches_num_batches self stage source (set_num_batches 0 s)) as Hnum.
  rewrite Hget in Hnum. cbn [snd num_batches set_num_batches] in Hnum.
  eexists. unfold batches. fold source.
  rewrite (batches_loop_single_pass fuel self stage source _ [] items r s1 Hno Hget).
  split; [done|]. cbn [batch set_batch num_batches set_num_batches numberized_cache reads].
  split; [|split; [lia|done]].
  destruct r; [apply lookup_insert_eq|apply lookup_delete_eq].
Qed.

Lemma batches_single_pass_witness :
  ∃ s',
    batches (R := identity_shuffle) 1 (example_data growing_source None None false) TRAIN
      None (DataState_init tt)
    = Some (Gen [ {[ "a"%string := [PyInt 1; PyInt 2] ]};
                  {[ "a"%string := [PyInt 3; PyInt 4] ]};
                  {[ "a"%string := [PyInt 5] ]} ] None, s')
    ∧ batch s' !! TRAIN = None.
Proof.
  destruct (batches_single_pass (R := identity_shuffle)
              (example_data growing_source None None false) TRAIN None (DataState_init tt)
              [ {[ "a"%string := [PyInt 1; PyInt 2] ]};
                {[ "a"%string := [PyInt 3; PyInt 4] ]};
                {[ "a"%string := [PyInt 5] ]} ] None
              (_get_batches (R := identity_shuffle)
                 (example_data growing_source None None false) TRAIN growing_source
                 (set_num_batches 0 (DataState_init tt))).2 0)
    as (s' & Hrun & Hcursor & _).
  - right. reflexivity.
  - vm_compute. reflexivity.
  - exists s'. split; [exact Hrun|exact Hcursor].
Defined.

(** X10: a stream that raises leaves a spent cursor behind: for a phase
    without epochs, the traversal in which the stream raises yields the
    batches before the failure and ends with the exception; the traversal
    after it finds the spent cursor, yields nothing, ends normally and clears
    the cursor; only the one after that derives the stream anew. *)
Theorem batches_after_failure
    {T rng : Type} {R : RandomSource rng}
    (self : Data T) (stage : Stage) (ds ds' : option DataSource) (s : DataState T rng)
    (items : list (gmap string T)) (e : exn) (s1 : DataState T rng) (fuel : nat) :
  let source := default (data_source self) ds in
  stage ≠ TRAIN ∨ epoch_size self = None →
  _get_batches self stage source (set_num_batches 0 s) = (Ok (Gen items (Some e)), s1) →
  ∃ s' s'',
    batches (S fuel) self stage ds s = Some (Gen items (Some e), s')
    ∧ batches (S fuel) self stage ds' s' = Some (Gen [] None, s'')
    ∧ batch s'' !! stage = None
    ∧ reads s'' = reads s1.
Proof.
  intros source Hno Hget.
  destruct (batches_single_pass self stage ds s items (Some e) s1 fuel Hno Hget)
    as (s' & Hrun & Hcursor & _ & _ & Hreads).
  assert (_get_batches self stage (default (data_source self) ds') (set_num_batches 0 s')
          = (Ok (Gen [] None), set_num_batches 0 s')) as Hget'.
  { by apply _get_batches_live. }
  destruct (batches_single_pass self stage ds' s' [] None _ fuel Hno Hget')
    as (s'' & Hrun' & Hcursor' & _ & _ & Hreads').
  exists s', s''. split; [done|]. split; [done|]. split; [done|].
  rewrite Hreads'. cbn [reads set_num_batches]. done.
Qed.

Lemma batches_after_failure_witness :
  ∃ s' s'',
    batches (R := identity_shuffle) 1 (example_data broken_source None None false) TRAIN
      None (DataState_init tt)
    = Some (Gen [] (Some (ConverterError "a")), s')
    ∧ batches (R := identity_shuffle) 1 (example_data broken_source None None false) TRAIN
        None s'
      = Some (Gen [] None, s'').
Proof.
  destruct (batches_after_failure (R := identity_shuffle)
              (example_data broken_source None None false) TRAIN None None
              (DataState_init tt) [] (ConverterError "a")
              (_get_batches (R := identity_shuffle)
                 (example_data broken_source None None false) TRAIN broken_source
                 (set_num_batches 0 (DataState_init tt))).2 0)
    as (s' & s'' & Hrun & Hrun' & _).
  - right. reflexivity.
  - vm_compute. reflexivity.
  - exists s', s''. split; [exact Hrun|exact Hrun'].
Defined.

(** ** Data.batches: the epoch bound *)

(** X11: the batch that is pulled when the epoch bound is found is lost.
    With an epoch size [E >= 0] and a live [TRAIN] cursor that still holds
    more than [E] batches, a traversal yields the first [E] of them and ends
    normally; the cursor is left with the batches from position [E + 1] on:
    the batch at position [E] was taken from the cursor for the test and is
    neither yielded nor kept. *)
Theorem batches_epoch_bound_drops_a_batch
    {T rng : Type} {R : RandomSource rng}
    (self : Data T) (ds : option DataSource) (s : DataState T rng)
    (E : nat) (items : list (gmap string T)) (r : option exn) (fuel : nat) :
  epoch_size self = Some (Z.of_nat E) →
  batch s !! TRAIN = Some (Gen items r) →
  E < length items →
  ∃ s',
    batches (S fuel) self TRAIN ds s = Some (Gen (take E items) None, s')
    ∧ batch s' !! TRAIN = Some (Gen (drop (S E) items) r)
    ∧ num_batches s' = 0%Z
    ∧ reads s' = reads s.
Proof.
  intros HE Hcursor Hlen. eexists. unfold batches. cbn [batches_loop].
  rewrite (_get_batches_live self TRAIN _ (set_num_batches 0 s) (Gen items r)) by done.
  rewrite HE. cbn [yielded raised num_batches set_num_batches].
  rewrite for_batches_TRAIN by lia.
  rewrite decide_True by lia.
  cbn [for_yielded for_rest for_num_batches for_returned app].
  replace (Z.to_nat (Z.of_nat E - 0)) with E by lia.
  split; [done|]. cbn [batch set_batch num_batches set_num_batches reads].
  split; [apply lookup_insert_eq|done].
Qed.

Lemma batches_epoch_bound_drops_a_batch_witness :
  ∃ s',
    batches (R := identity_shuffle) 1 (example_data growing_source None (Some 1%Z) false)
      TRAIN None
      (set_batch (<[TRAIN := Gen [ {[ "a"%string := [PyInt 1] ]};
                                   {[ "a"%string := [PyInt 2] ]};
                                   {[ "a"%string := [PyInt 3] ]} ] None]>)
         (DataState_init tt))
    = Some (Gen [ {[ "a"%string := [PyInt 1] ]} ] None, s')
    ∧ batch s' !! TRAIN = Some (Gen [ {[ "a"%string := [PyInt 3] ]} ] None).
Proof.
  destruct (batches_epoch_bound_drops_a_batch (R := identity_shuffle)
              (example_data growing_source None (Some 1%Z) false) None
              (set_batch (<[TRAIN := Gen [ {[ "a"%string := [PyInt 1] ]};
                                           {[ "a"%string := [PyInt 2] ]};
                                           {[ "a"%string := [PyInt 3] ]} ] None]>)
                 (DataState_init tt))
              1 [ {[ "a"%string := [PyInt 1] ]}; {[ "a"%string := [PyInt 2] ]};
                  {[ "a"%string := [PyInt 3] ]} ] None 0)
    as (s' & Hrun & Hcursor & _).
  - reflexivity.
  - reflexivity.
  - simpl. lia.
  - exists s'. split; [exact Hrun|exact Hcursor].
Defined.

(** X12: with an epoch size of zero a traversal of [batches(TRAIN)] never
    yields a batch, whatever the state and the source: it ends in the first
    turn of the loop, on the first batch pulled (which is lost), on the end
    of an empty stream, or on an exception. *)
Theorem batches_epoch_size_zero_yields_nothing
    {T rng : Type} {R : RandomSource rng}
    (self : Data T) (ds : option DataSource) (s : DataState T rng) (fuel : nat) :
  epoch_size self = Some 0%Z →
  ∃ out s', batches (S fuel) self TRAIN ds s = Some (out, s') ∧ yielded out = [].
Proof.
  intros HE. unfold batches. cbn [batches_loop].
  pose proof (_get_batches_num_batches self TRAIN (default (data_source self) ds)
                (set_num_batches 0 s)) as Hnum.
  destruct (_get_batches self TRAIN _ (set_num_batches 0 s)) as [[cursor|e] s1].
  - cbn [snd num_batches set_num_batches] in Hnum. rewrite HE, Hnum.
    destruct cursor as [[|b items] r]; cbn [yielded raised for_batches].
    + cbn [for_returned for_yielded for_rest for_num_batches app].
      destruct r; [by eexists _, _|].
      rewrite bool_decide_eq_true_2 by done. cbn [negb orb no_epoch_size].
      rewrite bool_decide_eq_true_2 by done. by eexists _, _.
    + rewrite !bool_decide_eq_true_2 by done. cbn [andb for_returned for_yielded app].
      by eexists _, _.
  - by eexists _, _.
Qed.

Lemma batches_epoch_size_zero_yields_nothing_witness :
  ∃ out s',
    batches (R := identity_shuffle) 1 (example_data growing_source None (Some 0%Z) false)
      TRAIN None (DataState_init tt) = Some (out, s')
    ∧ yielded out = [].
Proof.
  apply (batches_epoch_size_zero_yields_nothing (R := identity_shuffle)
           (example_data growing_source None (Some 0%Z) false) None (DataState_init tt) 0).
  reflexivity.
Defined.

(** ** Data.batches: a TRAIN phase without batches *)
Section empty_supply.
Context {T rng : Type} {R : RandomSource rng}.
Variables (self : Data T) (source : DataSource) (E : Z) (Inv : DataState T rng → Prop).
Hypothesis (HE : epoch_size self = Some E) (HE0 : E ≠ 0%Z).
Hypothesis Hsupplies : supplies self source 0 Inv.

Lemma batches_loop_empty_supply fuel (s : DataState T rng) acc :
  Inv s → batch s !! TRAIN = None →
  batches_loop fuel self TRAIN source s acc = None.
Proof.
  destruct Hsupplies as [Hinv Hderive].
  revert s acc. induction fuel as [|fuel IH]; intros s acc HInv Hcursor; [done|].
  destruct (Hderive s HInv Hcursor) as (items & s1 & Hget & Hlen & HInv1).
  destruct items; [|done].
  cbn [batches_loop]. rewrite Hget, HE.
  cbn [yielded raised for_batches for_returned for_yielded for_rest for_num_batches].
  rewrite bool_decide_eq_true_2 by done. cbn [negb orb no_epoch_size].
  rewrite bool_decide_eq_false_2 by done.
  apply IH.
  - by apply Hinv.
  - cbn [batch set_batch]. apply lookup_delete_eq.
Qed.
End empty_supply.

(** X13: with an epoch size that is not zero, when every derivation of the
    [TRAIN] stream gives no batch (no rows in the phase), a traversal of
    [batches(TRAIN)] that starts without a cursor never ends and never yields:
    the loop derives the empty stream again and again, whatever the bound on
    its turns. *)
Theorem batches_TRAIN_without_batches_never_ends
    {T rng : Type} {R : RandomSource rng}
    (self : Data T) (ds : option DataSource) (E : Z) (Inv : DataState T rng → Prop)
    (s : DataState T rng) (fuel : nat) :
  let source := default (data_source self) ds in
  epoch_size self = Some E → E ≠ 0%Z →
  supplies self source 0 Inv → Inv s → batch s !! TRAIN = None →
  batches fuel self TRAIN ds s = None.
Proof.
  intros source HE HE0 Hsupplies HInv Hcursor. unfold batches. fold source.
  apply (batches_loop_empty_supply self source E Inv HE HE0 Hsupplies).
  - destruct Hsupplies as [Hinv _]. exact (Hinv s id 0%Z HInv).
  - done.
Qed.

Lemma empty_source_supplies :
  supplies (R := identity_shuffle) (example_data empty_source None (Some 4%Z) true)
    empty_source 0
    (λ s, numberized_cache s !! TRAIN = None ∨ numberized_cache s !! TRAIN = Some []).
Proof.
  split; [done|]. intros s Hcache Hcursor.
  unfold _get_batches. rewrite Hcursor.
  rewrite get_numberized_rows_miss by done.
  eexists _, _. split; [reflexivity|]. split; [reflexivity|].
  right. cbn [numberized_cache set_batch set_random_state set_numberized_cache].
  apply lookup_insert_eq.
Defined.

Lemma batches_TRAIN_without_batches_never_ends_witness :
  batches (R := identity_shuffle) 1000 (example_data empty_source None (Some 4%Z) true)
    TRAIN None (DataState_init tt) = None.
Proof.
  apply (batches_TRAIN_without_batches_never_ends (R := identity_shuffle)
           (example_data empty_source None (Some 4%Z) true) None 4
           (λ s, numberized_cache s !! TRAIN = None
                 ∨ numberized_cache s !! TRAIN = Some [])).
  - reflexivity.
  - lia.
  - exact empty_source_supplies.
  - left. reflexivity.
  - reflexivity.
Defined.

(** ** Data: what traversals do to the cache *)
Section cache_invariants.
Context {T rng : Type} {R : RandomSource rng}.
Implicit Types (self : Data T) (s : DataState T rng).

Lemma get_numberized_rows_keeps_entry self stage' rows s stage (r0 : row) l :
  numberized_cache s !! stage = Some (r0 :: l) →
  numberized_cache (get_numberized_rows self stage' rows s).2 !! stage = Some (r0 :: l).
Proof.
  intros Hentry. unfold get_numberized_rows. destruct (in_memory self); [|done].
  destruct (numberized_cache s !! stage') as [[|r' l']|] eqn:Hc; try done;
    (destruct (list_of_gen _); [|done]);
    cbn [snd numberized_cache set_numberized_cache];
    (rewrite lookup_insert_ne; [done|]); intros ->; congruence.
Qed.

Lemma _get_batches_keeps_entry self stage' source s stage (r0 : row) l :
  numberized_cache s !! stage = Some (r0 :: l) →
  numberized_cache (_get_batches self stage' source s).2 !! stage = Some (r0 :: l).
Proof.
  intros Hentry. unfold _get_batches. destruct (batch s !! stage'); [done|].
  pose proof (get_numberized_rows_keeps_entry self stage' (stage_rows source stage') s
                stage r0 l Hentry) as Hkeep.
  destruct (get_numberized_rows self stage' (stage_rows source stage') s)
    as [[nr|e] s1]; [|done].
  by destruct (batcher_batchify _ _ _ _).
Qed.

Lemma batches_loop_keeps_entry fuel self stage' source s acc stage (r0 : row) l out s' :
  numberized_cache s !! stage = Some (r0 :: l) →
  batches_loop fuel self stage' source s acc = Some (out, s') →
  numberized_cache s' !! stage = Some (r0 :: l).
Proof.
  revert s acc. induction fuel as [|fuel IH]; intros s acc Hentry Hrun; [done|].
  cbn [batches_loop] in Hrun.
  pose proof (_get_batches_keeps_entry self stage' source s stage r0 l Hentry) as Hkeep.
  destruct (_get_batches self stage' source s) as [[cursor|e] s1]; simpl in Hkeep.
  - destruct (for_returned _); [by injection Hrun as <- <-|].
    destruct (raised cursor); [by injection Hrun as <- <-|].
    destruct (negb _ || _); [by injection Hrun as <- <-|].
    by apply IH in Hrun.
  - by injection Hrun as <- <-.
Qed.

Lemma _get_batches_lazy_cache self stage source s :
  in_memory self = false →
  numberized_cache (_get_batches self stage source s).2 = numberized_cache s.
Proof.
  intros Hmem. unfold _get_batches, get_numberized_rows. rewrite Hmem.
  destruct (batch s !! stage); [done|]. by destruct (batcher_batchify _ _ _ _).
Qed.

Lemma batches_loop_lazy_cache fuel self stage source s acc out s' :
  in_memory self = false →
  batches_loop fuel self stage source s acc = Some (out, s') →
  numberized_cache s' = numberized_cache s.
Proof.
  intros Hmem. revert s acc. induction fuel as [|fuel IH]; intros s acc Hrun; [done|].
  cbn [batches_loop] in Hrun.
  pose proof (_get_batches_lazy_cache self stage source s Hmem) as Hkeep.
  destruct (_get_batches self stage source s) as [[cursor|e] s1]; simpl in Hkeep.
  - destruct (for_returned _); [by injection Hrun as <- <-|].
    destruct (raised cursor); [by injection Hrun as <- <-|].
    destruct (negb _ || _); [by injection Hrun as <- <-|].
    apply IH in Hrun. by rewrite Hrun.
  - by injection Hrun as <- <-.
Qed.

End cache_invariants.

(** X14: a non-empty list of rows in the cache is never replaced: whatever
    phase is traversed, with whatever source, if the traversal ends, the entry
    of the cache that held a non-empty list holds the same list afterwards. *)
Theorem nonempty_cache_entry_is_kept
    {T rng : Type} {R : RandomSource rng}
    (self : Data T) (stage stage' : Stage) (ds : option DataSource)
    (s s' : DataState T rng) (r0 : row) (l : list row) (fuel : nat)
    (out : gen (gmap string T)) :
  numberized_cache s !! stage = Some (r0 :: l) →
  batches fuel self stage' ds s = Some (out, s') →
  numberized_cache s' !! stage = Some (r0 :: l).
Proof.
  intros Hentry Hrun. unfold batches in Hrun.
  by eapply batches_loop_keeps_entry in Hrun.
Qed.

Lemma nonempty_cache_entry_is_kept_witness :
  numberized_cache
    (_get_batches (R := identity_shuffle) (example_data growing_source None None true)
       EVAL growing_source
       (set_numberized_cache {[ TRAIN := [scenario_row 9] ]} (DataState_init tt))).2
  !! TRAIN = Some [scenario_row 9]
  ∧ ∀ s' out,
      batches (R := identity_shuffle) 2 (example_data growing_source None None true) EVAL None
        (set_numberized_cache {[ TRAIN := [scenario_row 9] ]} (DataState_init tt))
      = Some (out, s') →
      numberized_cache s' !! TRAIN = Some [scenario_row 9].
Proof.
  split; [vm_compute; reflexivity|]. intros s' out Hrun.
  apply (nonempty_cache_entry_is_kept (R := identity_shuffle)
           (example_data growing_source None None true) TRAIN EVAL None
           (set_numberized_cache {[ TRAIN := [scenario_row 9] ]} (DataState_init tt))
           s' (scenario_row 9) [] 2 out).
  - reflexivity.
  - exact Hrun.
Defined.

(** X15: with the cache off no traversal writes to the cache: if a
    traversal ends, the cache is what it was before. *)
Theorem lazy_traversal_never_caches
    {T rng : Type} {R : RandomSource rng}
    (self : Data T) (stage : Stage) (ds : option DataSource) (s s' : DataState T rng)
    (fuel : nat) (out : gen (gmap string T)) :
  in_memory self = false →
  batches fuel self stage ds s = Some (out, s') →
  numberized_cache s' = numberized_cache s.
Proof.
  intros Hmem Hrun. unfold batches in Hrun.
  by eapply batches_loop_lazy_cache in Hrun.
Qed.

Lemma lazy_traversal_never_caches_witness :
  ∃ out s',
    batches (R := identity_shuffle) 3 (example_data growing_source None (Some 4%Z) false)
      TRAIN None (DataState_init tt) = Some (out, s')
    ∧ numberized_cache s' = ∅.
Proof.
  destruct (batches (R := identity_shuffle) 3
              (example_data growing_source None (Some 4%Z) false) TRAIN None
              (DataState_init tt)) as [[out s']|] eqn:Hrun.
  - exists out, s'. split; [reflexivity|].
    apply (lazy_traversal_never_caches (R := identity_shuffle)
             (example_data growing_source None (Some 4%Z) false) TRAIN None
             (DataState_init tt) s' 3 out); [reflexivity|exact Hrun].
  - vm_compute in Hrun. discriminate.
Defined.



(** ** PoolingBatcher with a sort key: every batch is sorted *)

Lemma StronglySorted_app_parts {A : Type} (Rel : A → A → Prop) (l1 l2 : list A) :
  StronglySorted Rel (l1 ++ l2) → StronglySorted Rel l1 ∧ StronglySorted Rel l2.
Proof.
  induction l1 as [|x l1 IH]; simpl; intros Hs.
  - split; [constructor|done].
  - inversion Hs as [|? ? Hs' Hall]; subst. destruct (IH Hs') as [H1 H2].
    split; [|done]. constructor; [done|].
    apply Forall_app in Hall. tauto.
Qed.

Lemma sorted_by_key_desc_py_slice (key : key_fn) (pool : list row) (lo hi : Z) :
  sorted_by_key_desc key pool → sorted_by_key_desc key (py_slice pool lo hi).
Proof.
  intros (ks & Hks & Hsorted). unfold py_slice.
  set (a := Z.to_nat (slice_bound (Z.of_nat (length pool)) lo)).
  set (n := Z.to_nat (slice_bound (Z.of_nat (length pool)) hi
                      - slice_bound (Z.of_nat (length pool)) lo)).
  exists (take n (drop a ks)). split.
  - apply mapM_result_Ok, Forall2_take, Forall2_drop. by apply mapM_result_Ok.
  - rewrite <- (take_drop a ks) in Hsorted.
    apply StronglySorted_app_parts in Hsorted as [_ Hdrop].
    rewrite <- (take_drop n (drop a ks)) in Hdrop.
    by apply StronglySorted_app_parts in Hdrop as [Htake _].
Qed.

Lemma pooling_emit_sorted_slices {rng : Type} {R : RandomSource rng}
    (batch_size : Z) (pools : list (list row)) r (g : rng) (b : list row) :
  b ∈ yielded (pooling_emit batch_size true pools r g).1 →
  ∃ pool lo hi, pool ∈ pools ∧ b = py_slice pool lo hi.
Proof.
  revert g. induction pools as [|pool pools IH]; intros g Hb.
  { by apply elem_of_nil in Hb. }
  cbn [pooling_emit] in Hb.
  destruct (decide (batch_size = 0)%Z) as [HB|HB].
  { unfold pool_batches in Hb. rewrite decide_True in Hb by done.
    by apply elem_of_nil in Hb. }
  rewrite pool_batches_sorted in Hb by done.
  destruct (pooling_emit batch_size true pools r _) as [out g'] eqn:Hout.
  simpl in Hb. apply elem_of_app in Hb as [Hb|Hb].
  - apply list_elem_of_fmap in Hb as (i & -> & _).
    exists pool, (batch_size * i)%Z, (batch_size * (i + 1))%Z. split; [left|done].
  - specialize (IH (shuffle (py_range (ceil_div (Z.of_nat (length pool)) batch_size)) g).2).
    rewrite Hout in IH. destruct (IH Hb) as (pool' & lo & hi & Hin & ->).
    exists pool', lo, hi. split; [by right|done].
Qed.

(** X17: with a sort key, every batch that [PoolingBatcher.batchify] yields
    is in non-increasing order of the key, for every iterable, every batch
    size and pool size and every shuffle: a batch is a slice of a sorted pool
    and is never rearranged itself. *)
Theorem PoolingBatcher_batchify_batches_sorted
    {rng : Type} {R : RandomSource rng}
    (self : PoolingBatcher) (stage : Stage) (iterable : gen (option row))
    (key : key_fn) (g : rng) :
  Forall (sorted_by_key_desc key)
    (yielded (PoolingBatcher_batch_rows self iterable (Some key) stage g).1).
Proof.
  apply Forall_forall. intros b Hb. unfold PoolingBatcher_batch_rows in Hb.
  replace (bool_decide (is_Some (Some key))) with true in Hb
    by (symmetry; apply bool_decide_eq_true; eauto).
  apply pooling_emit_sorted_slices in Hb as (pool & lo & hi & Hpool & ->).
  apply sorted_by_key_desc_py_slice.
  pose proof (_group_iter_sorted iterable
                (_batch_sizes (base self) stage * pool_num_batches self) key) as Hs.
  rewrite Forall_forall in Hs. by apply Hs.
Qed.
